(** * a0-jax: the self-play training pipeline of [train_agent.py]

    A shallow embedding of [train_agent.py] and the properties of its
    trajectory compiler ([prepare_training_data]), of the corpus collection
    ([collect_selfplay_data]), of the loss ([loss_fn]) and of the mini-batch
    loop of [train].

    Conventions of the embedding:
    - a Python exception is a value [Raise e] of the type [result];
    - an array is a list, an array of shape (games, plies) a list of lists;
    - sizes (batch sizes, corpus sizes, lengths) are natural numbers; the
      bounds of [range] and of slices, which the source obtains by
      subtraction, are integers of [Z];
    - the trajectory compiler is polymorphic in the type of rewards, with the
      unary minus as a parameter; the loss is stated on real numbers, which
      stand for the single precision floats of the source (rounding is not
      modelled). *)

From Stdlib Require Import List Arith ZArith Bool Lia PeanoNat.
From Stdlib Require Import Reals Lra.
Import ListNotations.

Set Implicit Arguments.

(** ** Exceptions *)

(** The exceptions the modelled code can raise.  None of them is raised by a
    statement of the source: they come from built-ins and library calls.
    [ConfigurationError] is raised nowhere; it names the outcome that the
    specification asks for on a buffer smaller than one mini-batch. *)
Inductive exn : Type :=
| IndexError
| TypeError
| ValueError
| ZeroDivisionError
| ConfigurationError.

Inductive result (A : Type) : Type :=
| Ok (a : A)
| Raise (e : exn).

Arguments Ok {A} a.
Arguments Raise {A} e.

Definition bind {A B : Type} (r : result A) (k : A -> result B) : result B :=
  match r with
  | Ok a => k a
  | Raise e => Raise e
  end.

Declare Scope result_scope.
Delimit Scope result_scope with result.
Notation "x <- r ;; k" := (bind r (fun x => k))
  (at level 61, r at next level, right associativity) : result_scope.
Notation "' p <- r ;; k" := (bind r (fun p => k))
  (at level 61, p pattern, r at next level, right associativity) : result_scope.
Open Scope result_scope.

(** A [for] loop whose body may raise: the state is threaded from left to
    right and the first exception ends the loop. *)
Fixpoint for_each {A S : Type} (body : S -> A -> result S) (xs : list A) (s : S)
  : result S :=
  match xs with
  | [] => Ok s
  | x :: xs' => s' <- body s x ;; for_each body xs' s'
  end.

(** [xs[i]] for an index that is not negative. *)
Definition getitem {A : Type} (xs : list A) (i : nat) : result A :=
  match nth_error xs i with
  | Some x => Ok x
  | None => Raise IndexError
  end.

(** ** Data model *)

Module TrainingExample.
(** The dataclass [TrainingExample]; its fields hold one example, or, after
    stacking, one array per field. *)
Record t (S A V : Type) : Type := Build
  { state : S;
    action_weights : A;
    value : V }.
End TrainingExample.

Module MoveOutput.
(** The dataclass [MoveOutput]; the fields are arrays over the games of a
    batch, and after the scan over the games and the plies. *)
Record t (S R T A : Type) : Type := Build
  { state : S;
    reward : R;
    terminated : T;
    action_weights : A }.
End MoveOutput.

(** ** The trajectory compiler *)

Section Compiler.

Variables Obs AW V : Type.

(** Unary minus on rewards. *)
Variable neg : V -> V.

Definition Sample : Type := TrainingExample.t Obs AW V.

Definition Trajectories : Type :=
  MoveOutput.t (list (list Obs)) (list (list V)) (list (list bool))
               (list (list AW)).

(** The body of the loop over [j]: the state of the loop is the variable
    [value] ([None] as in the source) and the buffer.  The conversion of the
    value to a single precision array leaves it as it is. *)
Definition ply_step (state : list Obs) (is_terminated : list bool)
    (action_weights : list AW) (reward : list V) (L : nat)
    (acc : option V * list Sample) (j : nat)
  : result (option V * list Sample) :=
  let idx := L - 1 - j in
  t <- getitem is_terminated idx ;;
  if (t : bool) then Ok acc
  else
    let '(value, buffer) := acc in
    v <- match value with
         | None => getitem reward idx
         | Some v => Ok (neg v)
         end ;;
    s <- getitem state idx ;;
    a <- getitem action_weights idx ;;
    Ok (Some v, buffer ++ [TrainingExample.Build s a v]).

(** The body of the loop over [i]. *)
Definition game_step (data : Trajectories) (buffer : list Sample) (i : nat)
  : result (list Sample) :=
  state <- getitem (MoveOutput.state data) i ;;
  is_terminated <- getitem (MoveOutput.terminated data) i ;;
  action_weights <- getitem (MoveOutput.action_weights data) i ;;
  reward <- getitem (MoveOutput.reward data) i ;;
  let L := length is_terminated in
  '(_, buffer') <-
    for_each (ply_step state is_terminated action_weights reward L)
             (seq 0 L) (None, buffer) ;;
  Ok buffer'.

Definition prepare_training_data (data : Trajectories)
  : result (list Sample) :=
  let N := length (MoveOutput.terminated data) in
  for_each (game_step data) (seq 0 N) [].

End Compiler.

(** ** The trajectories as records per ply *)

Section Records.

Variables Obs AW V : Type.
Variable neg : V -> V.

(** One ply of one game, the four arrays read at the same position. *)
Record RawMoveRecord : Type := Ply
  { observation : Obs;
    terminated_flag : bool;
    weights : AW;
    move_reward : V }.

Definition zip_plies (state : list Obs) (is_terminated : list bool)
    (action_weights : list AW) (reward : list V) : list RawMoveRecord :=
  map (fun '(s, (t, (a, r))) => Ply s t a r)
      (combine state (combine is_terminated (combine action_weights reward))).

(** The plies of every game, first ply first. *)
Definition games (data : Trajectories Obs AW V) : list (list RawMoveRecord) :=
  map (fun '(s, (t, (a, r))) => zip_plies s t a r)
      (combine (MoveOutput.state data)
         (combine (MoveOutput.terminated data)
            (combine (MoveOutput.action_weights data)
                     (MoveOutput.reward data)))).

Definition shape {A : Type} (xss : list (list A)) : list nat :=
  map (@length A) xss.

(** The four arrays have the same number of games and of plies. *)
Definition well_shaped (data : Trajectories Obs AW V) : Prop :=
  shape (MoveOutput.state data) = shape (MoveOutput.terminated data) /\
  shape (MoveOutput.action_weights data) = shape (MoveOutput.terminated data) /\
  shape (MoveOutput.reward data) = shape (MoveOutput.terminated data).

Definition live (m : RawMoveRecord) : bool := negb (terminated_flag m).

(** The plies of a game that are not padding, last ply first. *)
Definition live_plies_backwards (game : list RawMoveRecord)
  : list RawMoveRecord :=
  rev (filter live game).

(** The reward of the last ply that is not padding. *)
Definition final_reward (game : list RawMoveRecord) : option V :=
  option_map move_reward (hd_error (live_plies_backwards game)).

(** A walk over plies in the order of the list, with the variable [value]
    of the source as an argument. *)
Fixpoint walk (value : option V) (plies : list RawMoveRecord)
  : option V * list (Sample Obs AW V) :=
  match plies with
  | [] => (value, [])
  | m :: plies' =>
      if terminated_flag m then walk value plies'
      else
        let v := match value with
                 | None => move_reward m
                 | Some v => neg v
                 end in
        let '(last, es) := walk (Some v) plies' in
        (last, TrainingExample.Build (observation m) (weights m) v :: es)
  end.

(** The examples of a game whose propagated values are [r], [neg r],
    [neg (neg r)], ... from the [k]-th on. *)
Fixpoint label (r : V) (k : nat) (plies : list RawMoveRecord)
  : list (Sample Obs AW V) :=
  match plies with
  | [] => []
  | m :: plies' =>
      TrainingExample.Build (observation m) (weights m) (Nat.iter k neg r)
        :: label r (S k) plies'
  end.

(** The examples of one game: the plies that are not padding, last first,
    labelled from the reward of the last one. *)
Definition compiled_game (game : list RawMoveRecord)
  : list (Sample Obs AW V) :=
  match live_plies_backwards game with
  | [] => []
  | m :: plies => label (move_reward m) 0 (m :: plies)
  end.

(** A ply without its reward. *)
Definition strip (m : RawMoveRecord) : Obs * (bool * AW) :=
  (observation m, (terminated_flag m, weights m)).

(** The trajectories without their padding. *)
Definition keep_live {A : Type} (flags : list bool) (xs : list A) : list A :=
  map snd (filter (fun p => negb (fst p)) (combine flags xs)).

Definition keep_live_rows {A : Type} (flags : list (list bool))
    (xss : list (list A)) : list (list A) :=
  map (fun p => keep_live (fst p) (snd p)) (combine flags xss).

Definition drop_padding (data : Trajectories Obs AW V)
  : Trajectories Obs AW V :=
  let flags := MoveOutput.terminated data in
  MoveOutput.Build
    (keep_live_rows flags (MoveOutput.state data))
    (keep_live_rows flags (MoveOutput.reward data))
    (keep_live_rows flags flags)
    (keep_live_rows flags (MoveOutput.action_weights data)).

End Records.

(** ** Self-play *)

Section SelfPlay.

(** The collaborators of the driver, which the file imports: the game
    ([env], [utils]), the network ([utils.batched_policy]), the search of
    [mctx] and the key splitting of [jax.random].  A batch of environments
    is the list of its copies. *)
Variables Agent Env Key Obs Logits Val Action AW Rew Mask : Type.

Variable split : Key -> nat -> list Key.
Variable reset_env : Env -> Env.
Variable canonical_observation : Env -> Obs.
Variable is_terminated : Env -> bool.
Variable invalid_actions : Env -> Mask.
Variable batched_policy : Agent -> list Obs -> list Logits * list Val.
Variable gumbel_muzero_policy :
  Agent -> Key -> list Logits * list Val * list Env -> list Mask ->
  list Action * list AW.
Variable env_step : Env -> Action -> Env * Rew.

(** Modelled from the spec: [utils.replicate], which section 6 gives as
    [replicate(EnvState, n) -> EnvState[n]], a batch of [n] independent
    copies. *)
Definition replicate (env : Env) (n : nat) : list Env := repeat env n.

(** [a, b = jax.random.split(key, 2)]. *)
Definition split2 (key : Key) : result (Key * Key) :=
  match split key 2 with
  | [a; b] => Ok (a, b)
  | _ => Raise ValueError
  end.

Definition PlyOutput : Type :=
  MoveOutput.t (list Obs) (list Rew) (list bool) (list AW).

Definition single_move (agent : Agent) (prev : list Env * Key)
  : result ((list Env * Key) * PlyOutput) :=
  let '(env, rng_key) := prev in
  '(rng_key, rng_key_next) <- split2 rng_key ;;
  let state := map canonical_observation env in
  let terminated := map is_terminated env in
  let '(prior_logits, value) := batched_policy agent state in
  let root := (prior_logits, value, env) in
  let '(action, action_weights) :=
    gumbel_muzero_policy agent rng_key root (map invalid_actions env) in
  let stepped := map (fun p => env_step (fst p) (snd p)) (combine env action) in
  let env := map fst stepped in
  let reward := map snd stepped in
  Ok ((env, rng_key_next),
      MoveOutput.Build state reward terminated action_weights).

(** [scan f init None length]: the outputs of the steps, first step
    first. *)
Fixpoint scan {S O : Type} (f : S -> result (S * O)) (init : S) (length : nat)
  : result (S * list O) :=
  match length with
  | 0 => Ok (init, [])
  | Datatypes.S n =>
      '(s, o) <- f init ;;
      '(s', os) <- scan f s n ;;
      Ok (s', o :: os)
  end.

(** [swapaxes(x, 0, 1)] on an array of shape (plies, games). *)
Definition swapaxes {A : Type} (rows : list (list A)) : list (list A) :=
  match rows with
  | [] => []
  | row :: _ =>
      map (fun g =>
             flat_map (fun r => match nth_error r g with
                                | Some x => [x]
                                | None => []
                                end) rows)
          (seq 0 (length row))
  end.

Definition collect_batched_selfplay_data (agent : Agent) (env : Env)
    (rng_key : Key) (batch_size : nat) : result (Trajectories Obs AW Rew) :=
  let env := reset_env env in
  let env := replicate env batch_size in
  '(_, selfplay_data) <- scan (single_move agent) (env, rng_key) 4 ;;
  Ok (MoveOutput.Build
        (swapaxes (map (@MoveOutput.state _ _ _ _) selfplay_data))
        (swapaxes (map (@MoveOutput.reward _ _ _ _) selfplay_data))
        (swapaxes (map (@MoveOutput.terminated _ _ _ _) selfplay_data))
        (swapaxes (map (@MoveOutput.action_weights _ _ _ _) selfplay_data))).

(** [a // b] on sizes. *)
Definition floordiv (a b : nat) : result nat :=
  match b with
  | 0 => Raise ZeroDivisionError
  | _ => Ok (a / b)
  end.

(** [jax.tree_map(lambda *xs: np.concatenate(xs), *data)]: without a first
    tree the call of [tree_map] is ill-formed. *)
Definition tree_concatenate (data : list (Trajectories Obs AW Rew))
  : result (Trajectories Obs AW Rew) :=
  match data with
  | [] => Raise TypeError
  | _ =>
      Ok (MoveOutput.Build
            (concat (map (@MoveOutput.state _ _ _ _) data))
            (concat (map (@MoveOutput.reward _ _ _ _) data))
            (concat (map (@MoveOutput.terminated _ _ _ _) data))
            (concat (map (@MoveOutput.action_weights _ _ _ _) data)))
  end.

(** The list [data] at the end of the loop over the keys. *)
Definition selfplay_batches (agent : Agent) (env : Env) (rng_key : Key)
    (batch_size N : nat) : result (list (Trajectories Obs AW Rew)) :=
  let rng_keys := split rng_key N in
  for_each
    (fun data rng_key =>
       batch <- collect_batched_selfplay_data agent env rng_key batch_size ;;
       Ok (data ++ [batch]))
    rng_keys [].

Definition collect_selfplay_data (agent : Agent) (env : Env) (rng_key : Key)
    (batch_size data_size : nat) : result (Trajectories Obs AW Rew) :=
  N <- floordiv data_size batch_size ;;
  data <- selfplay_batches agent env rng_key batch_size N ;;
  tree_concatenate data.

(** The number of games of a batch of trajectories. *)
Definition n_games (data : Trajectories Obs AW Rew) : nat :=
  length (MoveOutput.terminated data).

(** *** The corpus of the specification *)

(** The driver is called once for each of the [data_size / batch_size] keys
    split from the master key, and the result is the concatenation of the
    batches along the axis of the games. *)
Definition corpus_collected (agent : Agent) (env : Env) (rng_key : Key)
    (batch_size data_size : nat) : Prop :=
  exists batches,
    Forall2
      (fun key batch =>
         collect_batched_selfplay_data agent env key batch_size = Ok batch)
      (split rng_key (data_size / batch_size)) batches /\
    length batches = data_size / batch_size /\
    collect_selfplay_data agent env rng_key batch_size data_size =
    Ok (MoveOutput.Build
          (concat (map (@MoveOutput.state _ _ _ _) batches))
          (concat (map (@MoveOutput.reward _ _ _ _) batches))
          (concat (map (@MoveOutput.terminated _ _ _ _) batches))
          (concat (map (@MoveOutput.action_weights _ _ _ _) batches))).

(** The loop performs [data_size / batch_size] calls of the driver and the
    result, returned without an exception, holds
    [data_size / batch_size * batch_size] games, fewer than [data_size]. *)
Definition corpus_truncated (agent : Agent) (env : Env) (rng_key : Key)
    (batch_size data_size : nat) : Prop :=
  exists batches data,
    selfplay_batches agent env rng_key batch_size (data_size / batch_size) =
    Ok batches /\
    length batches = data_size / batch_size /\
    collect_selfplay_data agent env rng_key batch_size data_size = Ok data /\
    n_games data = data_size / batch_size * batch_size /\
    n_games data < data_size.

End SelfPlay.

(** ** The loss *)

Section Loss.

Local Open Scope R_scope.

Variables Net Obs : Type.

(** [utils.batched_policy]: the action logits and the value of every state
    of a batch. *)
Variable batched_policy : Net -> list Obs -> list (list R) * list R.

Definition Batch : Type :=
  TrainingExample.t (list Obs) (list (list R)) (list R).

Definition Rsum (xs : list R) : R := fold_right Rplus 0 xs.

(** [jnp.mean] *)
Definition mean (xs : list R) : R := Rsum xs / INR (length xs).

(** An operation on two arrays of one shape, element by element. *)
Definition map2 {A B C : Type} (f : A -> B -> C) (xs : list A) (ys : list B)
  : list C :=
  map (fun p => f (fst p) (snd p)) (combine xs ys).

(** [optax.l2_loss] *)
Definition l2_loss (prediction target : R) : R :=
  / 2 * (prediction - target)².

(** [jax.nn.log_softmax] on one row. *)
Definition log_softmax (xs : list R) : list R :=
  map (fun x => x - ln (Rsum (map exp xs))) xs.

(** [jnp.clip(x, a_min=a_min, a_max=None)] on one number. *)
Definition clip (a_min x : R) : R := Rmax x a_min.

(** The sum over the last axis in [kl_loss], for one row. *)
Definition kl_row (action_prs action_logits target_logits : list R) : R :=
  Rsum (map2 Rmult action_prs (map2 Rminus action_logits target_logits)).

Definition loss_fn (net : Net) (data : Batch) : R * (R * R) :=
  let '(action_logits, value) :=
    batched_policy net (TrainingExample.state data) in
  let mse_loss := map2 l2_loss value (TrainingExample.value data) in
  let mse_loss := mean mse_loss in
  let action_logits := map log_softmax action_logits in
  let action_prs := map (map exp) action_logits in
  let target_logits :=
    map log_softmax (TrainingExample.action_weights data) in
  let target_logits := map (map (clip (-50))) target_logits in
  let kl_loss :=
    map2 (fun p lt => kl_row (fst p) (snd p) lt)
         (combine action_prs action_logits) target_logits in
  let kl_loss := mean kl_loss in
  (mse_loss + kl_loss, (mse_loss, kl_loss)).

Definition value_loss (net : Net) (data : Batch) : R :=
  fst (snd (loss_fn net data)).

Definition policy_loss (net : Net) (data : Batch) : R :=
  snd (snd (loss_fn net data)).

(** *** The policy loss of the specification *)

Definition softmax (xs : list R) : list R := map exp (log_softmax xs).

(** The logarithm of a probability, with the floor of [-50] in the place of
    a smaller logarithm and of the logarithm of zero. *)
Definition floored_log (p : R) : R :=
  if Rlt_dec 0 p then Rmax (ln p) (-50) else -50.

(** The divergence from the target distribution to the one predicted from
    the logits of a row, in log-space. *)
Definition kl_divergence (logits target : list R) : R :=
  let predicted_log := log_softmax logits in
  Rsum (map2 (fun lp t => exp lp * (lp - floored_log t)) predicted_log target).

(** The same divergence read in the other direction, the terms weighted
    by the target. *)
Definition kl_divergence_weighted_by_target (logits target : list R) : R :=
  let predicted_log := log_softmax logits in
  Rsum (map2 (fun lp t => t * (floored_log t - lp)) predicted_log target).

(** Its mean over a mini-batch, the target of an example being its
    [action_weights]. *)
Definition policy_loss_spec (net : Net) (data : Batch) : R :=
  mean (map2 kl_divergence
             (fst (batched_policy net (TrainingExample.state data)))
             (TrainingExample.action_weights data)).

End Loss.

(** ** The training loop *)

Section Training.

Variables Net Optim Obs Grads : Type.

Variable batched_policy : Net -> list Obs -> list (list R) * list R.

(** The gradient of [loss_fn] in the network, which [jax.value_and_grad]
    returns with the losses, and [opax.apply_gradients]. *)
Variable grad_loss_fn : Net -> Batch Obs -> Grads.
Variable apply_gradients : Net -> Optim -> Grads -> Net * Optim.

Definition train_step (net : Net) (optim : Optim) (data : Batch Obs)
  : Net * Optim * (R * R) :=
  let '(_, losses) := loss_fn batched_policy net data in
  let grads := grad_loss_fn net data in
  let '(net, optim) := apply_gradients net optim grads in
  (net, optim, losses).

(** [jax.tree_map(lambda *xs: np.stack(xs), *buffer)]: without a first
    tree the call of [tree_map] is ill-formed. *)
Definition tree_stack (buffer : list (Sample Obs (list R) R))
  : result (Batch Obs) :=
  match buffer with
  | [] => Raise TypeError
  | _ =>
      Ok (TrainingExample.Build
            (map (@TrainingExample.state _ _ _) buffer)
            (map (@TrainingExample.action_weights _ _ _) buffer)
            (map (@TrainingExample.value _ _ _) buffer))
  end.

(** [range(start, stop, step)] *)
Definition py_range (start stop step : Z) : result (list Z) :=
  if (step =? 0)%Z then Raise ValueError
  else
    let len :=
      if (0 <? step)%Z then ((stop - start + step - 1) / step)%Z
      else ((start - stop - step - 1) / (- step))%Z in
    Ok (map (fun k => (start + Z.of_nat k * step)%Z) (seq 0 (Z.to_nat len))).

(** [xs[lo:hi]] *)
Definition slice_bound (len i : Z) : Z :=
  if (i <? 0)%Z then Z.max 0 (i + len) else Z.min i len.

Definition py_slice {A : Type} (xs : list A) (lo hi : Z) : list A :=
  let len := Z.of_nat (length xs) in
  let lo := slice_bound len lo in
  let hi := slice_bound len hi in
  firstn (Z.to_nat (hi - lo)) (skipn (Z.to_nat lo) xs).

(** [jax.tree_map(lambda x: x[lo:hi], buffer)] *)
Definition tree_slice (buffer : Batch Obs) (lo hi : Z) : Batch Obs :=
  TrainingExample.Build
    (py_slice (TrainingExample.state buffer) lo hi)
    (py_slice (TrainingExample.action_weights buffer) lo hi)
    (py_slice (TrainingExample.value buffer) lo hi).

Definition TrainState : Type := Net * Optim * list (R * R).

(** The body of the loop over the mini-batches. *)
Definition batch_step (buffer : Batch Obs) (batch_size : nat)
    (st : TrainState) (i : Z) : TrainState :=
  let '(agent, optim, losses) := st in
  let batch := tree_slice buffer i (i + Z.of_nat batch_size) in
  let '(agent, optim, loss) := train_step agent optim batch in
  (agent, optim, losses ++ [loss]).

(** The loop over the mini-batches of the stacked buffer. *)
Definition batch_loop (agent : Net) (optim : Optim) (buffer : Batch Obs)
    (batch_size : nat) : result TrainState :=
  let N := length (TrainingExample.state buffer) in
  indices <- py_range 0 (Z.of_nat N - Z.of_nat batch_size)
                        (Z.of_nat batch_size) ;;
  Ok (fold_left (batch_step buffer batch_size) indices (agent, optim, [])).

(** [value_loss, policy_loss = zip( *losses)]: two tuples when there is a
    loss, none to unpack when there is not. *)
Definition unzip_losses (losses : list (R * R)) : result (list R * list R) :=
  match losses with
  | [] => Raise ValueError
  | _ => Ok (map fst losses, map snd losses)
  end.

(** An iteration of [train] from the shuffled buffer on: the stacking, the
    loop over the mini-batches and the averages that are printed. *)
Definition train_epoch (agent : Net) (optim : Optim)
    (buffer : list (Sample Obs (list R) R)) (batch_size : nat)
  : result (Net * Optim * (R * R)) :=
  buffer <- tree_stack buffer ;;
  '(agent, optim, losses) <- batch_loop agent optim buffer batch_size ;;
  '(value_loss, policy_loss) <- unzip_losses losses ;;
  let value_loss := (Rsum value_loss / INR (length value_loss))%R in
  let policy_loss := (Rsum policy_loss / INR (length policy_loss))%R in
  Ok (agent, optim, (value_loss, policy_loss)).

(** *** The mini-batches of the specification *)

(** The buffer cut into contiguous mini-batches of [batch_size] examples, a
    last shorter one left out. *)
Definition full_batches (buffer : Batch Obs) (batch_size : nat)
  : list (Batch Obs) :=
  let N := length (TrainingExample.state buffer) in
  map (fun k => tree_slice buffer (Z.of_nat (k * batch_size))
                           (Z.of_nat (k * batch_size + batch_size)))
      (seq 0 (N / batch_size)).

(** The training steps on a list of mini-batches, in order. *)
Definition train_on (batches : list (Batch Obs)) (st : TrainState)
  : TrainState :=
  fold_left
    (fun st batch =>
       let '(agent, optim, losses) := st in
       let '(agent, optim, loss) := train_step agent optim batch in
       (agent, optim, losses ++ [loss]))
    batches st.


End Training.

(** ** Further notions *)

(** The outcome of code that raises nothing but [IndexError]. *)
Definition ok_or_index_error {A : Type} (r : result A) : Prop :=
  (exists a, r = Ok a) \/ r = Raise IndexError.

(** The element of a row of [swapaxes] that comes from one row of its
    argument. *)
Definition pick {A : Type} (g : nat) (row : list A) : list A :=
  match nth_error row g with
  | Some x => [x]
  | None => []
  end.

Section Shapes.

Variables Obs AW V : Type.

(** The batches of a list put one after the other along the axis of the
    games, as [np.concatenate] does in every array. *)
Definition concatenated (batches : list (Trajectories Obs AW V))
  : Trajectories Obs AW V :=
  MoveOutput.Build
    (concat (map (@MoveOutput.state _ _ _ _) batches))
    (concat (map (@MoveOutput.reward _ _ _ _) batches))
    (concat (map (@MoveOutput.terminated _ _ _ _) batches))
    (concat (map (@MoveOutput.action_weights _ _ _ _) batches)).

(** The four arrays of the output of one ply hold [B] games. *)
Definition ply_lengths
    (out : MoveOutput.t (list Obs) (list V) (list bool) (list AW)) (B : nat)
  : Prop :=
  length (MoveOutput.state out) = B /\
  length (MoveOutput.reward out) = B /\
  length (MoveOutput.terminated out) = B /\
  length (MoveOutput.action_weights out) = B.

(** A stacked buffer: its three arrays have one length. *)
Definition stacked_buffer (buffer : Batch Obs) : Prop :=
  length (TrainingExample.action_weights buffer) =
  length (TrainingExample.state buffer) /\
  length (TrainingExample.value buffer) =
  length (TrainingExample.state buffer).

End Shapes.

(** Rows of logits and of action weights of one length, not empty, on which
    no logarithm of a target is below the floor of [loss_fn]. *)
Definition rows_in_range (logits weights : list (list R)) : Prop :=
  Forall2 (fun lg w =>
             lg <> [] /\ length lg = length w /\
             Forall (fun x => (-50 <= x)%R) (log_softmax w))
          logits weights.

(** ** The iterations of [train] *)

Section Train.

(** The collaborators of [train]: those of the driver and of the training
    step, and [random.shuffle] with the state of the generator of Python.
    The logits and the action weights are vectors of real numbers, the
    values and the rewards real numbers. *)
Variables Net Optim Env Key Obs Action Mask Grads PyRandom : Type.

Variable split : Key -> nat -> list Key.
Variable reset_env : Env -> Env.
Variable canonical_observation : Env -> Obs.
Variable is_terminated : Env -> bool.
Variable invalid_actions : Env -> Mask.
Variable batched_policy : Net -> list Obs -> list (list R) * list R.
Variable gumbel_muzero_policy :
  Net -> Key -> list (list R) * list R * list Env -> list Mask ->
  list Action * list (list R).
Variable env_step : Env -> Action -> Env * R.
Variable grad_loss_fn : Net -> Batch Obs -> Grads.
Variable apply_gradients : Net -> Optim -> Grads -> Net * Optim.
Variable shuffle :
  PyRandom -> list (Sample Obs (list R) R) ->
  list (Sample Obs (list R) R) * PyRandom.

(** The state that the loop over the iterations threads: the agent, the
    optimizer, the key, the generator of Python and the losses printed so
    far. *)
Definition IterationState : Type :=
  Net * Optim * Key * PyRandom * list (R * R).

(** The body of the loop over the iterations. *)
Definition train_iteration (env : Env) (batch_size : nat)
    (st : IterationState) (iteration : nat) : result IterationState :=
  let '(agent, optim, rng_key, random, printed) := st in
  '(rng_key_1, rng_key) <- split2 split rng_key ;;
  data <- collect_selfplay_data split reset_env canonical_observation
            is_terminated invalid_actions batched_policy gumbel_muzero_policy
            env_step agent env rng_key_1 batch_size 1024 ;;
  buffer <- prepare_training_data Ropp data ;;
  let '(buffer, random) := shuffle random buffer in
  '(agent, optim, losses) <-
    train_epoch batched_policy grad_loss_fn apply_gradients
                agent optim buffer batch_size ;;
  Ok (agent, optim, rng_key, random, printed ++ [losses]).

(** [train], from the agent, the environment, the key and the state of the
    optimizer that its first lines build: the agent whose weights are saved
    and the losses printed by the iterations. *)
Definition train (agent : Net) (env : Env) (rng_key : Key) (optim : Optim)
    (random : PyRandom) (batch_size num_iterations : nat)
  : result (Net * list (R * R)) :=
  '(agent, _, _, _, printed) <-
    for_each (train_iteration env batch_size) (seq 0 num_iterations)
             (agent, optim, rng_key, random, []) ;;
  Ok (agent, printed).

End Train.

(** ** Concrete inputs *)

(** A network that returns the given logits and values on every batch. *)
Definition constant_policy (action_logits : list (list R)) (value : list R)
  : unit -> list unit -> list (list R) * list R :=
  fun _ _ => (action_logits, value).

(** A mini-batch of one example whose target is the distribution (1, 0),
    for a network whose logits on it are (1, 0). *)
Definition certain_target : Batch unit :=
  TrainingExample.Build [tt] [[1; 0]%R] [0%R].

(** A mini-batch of one example whose target is the distribution
    (3/4, 1/4), for a network whose logits (ln 3, 0) predict that very
    distribution. *)
Definition matched_target : Batch unit :=
  TrainingExample.Build [tt] [[3 / 4; 1 / 4]%R] [0%R].

(** Trajectories with integer rewards.  One game of four plies that ends at
    its last ply with the reward 1. *)
Definition one_game : Trajectories nat nat Z :=
  MoveOutput.Build [[10; 11; 12; 13]]
                   [[0; 0; 0; 1]%Z]
                   [[false; false; false; false]]
                   [[0; 1; 2; 3]].

(** Two games of four plies: the second ends after two plies and has two
    plies of padding. *)
Definition two_games : Trajectories nat nat Z :=
  MoveOutput.Build [[10; 11; 12; 13]; [20; 21; 22; 23]]
                   [[5; 6; 7; 1]; [0; -1; 9; 9]]%Z
                   [[false; false; false; false]; [false; false; true; true]]
                   [[0; 1; 2; 3]; [4; 5; 6; 7]].

(** The same games with other rewards before the last ply of each game and
    on the padding. *)
Definition two_games_other_rewards : Trajectories nat nat Z :=
  MoveOutput.Build [[10; 11; 12; 13]; [20; 21; 22; 23]]
                   [[0; 0; 0; 1]; [3; -1; 4; 2]]%Z
                   [[false; false; false; false]; [false; false; true; true]]
                   [[0; 1; 2; 3]; [4; 5; 6; 7]].

(** A game for the driver: an environment counts its plies and the game ends
    after two of them, the second with the reward 1; a key is the path of its
    splits. *)
Module Toy.

Definition split (key : list nat) (n : nat) : list (list nat) :=
  map (fun i => key ++ [i]) (seq 0 n).

Definition reset_env (_ : nat) : nat := 0.

Definition canonical_observation (env : nat) : nat := env.

Definition is_terminated (env : nat) : bool := 2 <=? env.

Definition invalid_actions (env : nat) : nat := env.

Definition batched_policy (_ : unit) (state : list nat)
  : list unit * list Z :=
  (map (fun _ => tt) state, map (fun _ => 0%Z) state).

Definition gumbel_muzero_policy (_ : unit) (_ : list nat)
    (_ : list unit * list Z * list nat) (invalid : list nat)
  : list nat * list nat :=
  (map (fun _ => 1) invalid, map (fun _ => 1) invalid).

Definition env_step (env action : nat) : nat * Z :=
  if 2 <=? env then (env, 0%Z)
  else (env + action, if 2 <=? env + action then 1%Z else 0%Z).

Definition collect
  : unit -> nat -> list nat -> nat -> nat -> result (Trajectories nat nat Z) :=
  collect_selfplay_data split reset_env canonical_observation is_terminated
    invalid_actions batched_policy gumbel_muzero_policy env_step.

(** A network with constant outputs, no gradient, and an optimizer whose
    state counts the training steps. *)
Definition constant_outputs (_ : unit) (state : list nat)
  : list (list R) * list R :=
  (map (fun _ => [0; 0]%R) state, map (fun _ => 0%R) state).

Definition grad_loss_fn (_ : unit) (_ : Batch nat) : unit := tt.

Definition apply_gradients (net : unit) (optim : nat) (_ : unit)
  : unit * nat :=
  (net, S optim).

Definition example (s : nat) : Sample nat (list R) R :=
  TrainingExample.Build s [1 / 2; 1 / 2]%R 1%R.

(** The stacked buffer of the examples [0], ..., [n - 1]. *)
Definition stacked (n : nat) : Batch nat :=
  TrainingExample.Build (seq 0 n) (repeat [1 / 2; 1 / 2]%R n) (repeat 1%R n).

Definition loop
  : unit -> nat -> Batch nat -> nat -> result (unit * nat * list (R * R)) :=
  batch_loop constant_outputs grad_loss_fn apply_gradients.

Definition epoch
  : unit -> nat -> list (Sample nat (list R) R) -> nat ->
    result (unit * nat * (R * R)) :=
  train_epoch constant_outputs grad_loss_fn apply_gradients.

End Toy.

(** The same game with real rewards, for the iterations of [train]: the
    search returns the action 1 and the uniform weights for every root, and
    the shuffle reverses the buffer. *)
Module ToyTrain.

Definition search (_ : unit) (_ : list nat)
    (root : list (list R) * list R * list nat) (_ : list nat)
  : list nat * list (list R) :=
  (map (fun _ => 1) (snd root), map (fun _ => [1 / 2; 1 / 2]%R) (snd root)).

Definition step (env action : nat) : nat * R :=
  if 2 <=? env then (env, 0%R)
  else (env + action, if 2 <=? env + action then 1%R else 0%R).

Definition reverse (random : unit) (buffer : list (Sample nat (list R) R))
  : list (Sample nat (list R) R) * unit :=
  (rev buffer, random).

Definition driver
  : unit -> nat -> list nat -> nat -> result (Trajectories nat (list R) R) :=
  collect_batched_selfplay_data Toy.split Toy.reset_env
    Toy.canonical_observation Toy.is_terminated Toy.invalid_actions
    Toy.constant_outputs search step.

Definition corpus
  : unit -> nat -> list nat -> nat -> nat ->
    result (Trajectories nat (list R) R) :=
  collect_selfplay_data Toy.split Toy.reset_env Toy.canonical_observation
    Toy.is_terminated Toy.invalid_actions Toy.constant_outputs search step.

Definition run
  : unit -> nat -> list nat -> nat -> unit -> nat -> nat ->
    result (unit * list (R * R)) :=
  train Toy.split Toy.reset_env Toy.canonical_observation Toy.is_terminated
    Toy.invalid_actions Toy.constant_outputs search step
    Toy.grad_loss_fn Toy.apply_gradients reverse.

End ToyTrain.

(** Trajectories whose array of states lacks the second game. *)
Definition missing_state : Trajectories nat nat Z :=
  MoveOutput.Build [[10; 11; 12; 13]]
                   [[5; 6; 7; 1]; [0; -1; 9; 9]]%Z
                   [[false; false; false; false]; [false; false; true; true]]
                   [[0; 1; 2; 3]; [4; 5; 6; 7]].

(** * Properties *)

Unset Implicit Arguments.

Section CompilerFacts.

Variables Obs AW V : Type.
Variable neg : V -> V.

Lemma for_each_app {A S : Type} (body : S -> A -> result S) xs ys s :
  for_each body (xs ++ ys) s = (s' <- for_each body xs s ;; for_each body ys s').
Proof.
  revert s; induction xs as [|x xs IH]; intros s; simpl; [reflexivity|].
  destruct (body s x); simpl; auto.
Qed.

Lemma getitem_Some {A : Type} (xs : list A) i x :
  nth_error xs i = Some x -> getitem xs i = Ok x.
Proof. unfold getitem; intros ->; reflexivity. Qed.

Lemma nth_error_zip_plies s t a r i (m : RawMoveRecord Obs AW V) :
  nth_error (zip_plies s t a r) i = Some m ->
  nth_error s i = Some (observation m) /\
  nth_error t i = Some (terminated_flag m) /\
  nth_error a i = Some (weights m) /\
  nth_error r i = Some (move_reward m).
Proof.
  unfold zip_plies.
  revert t a r i; induction s as [|s0 s IH]; intros [|t0 t] [|a0 a] [|r0 r] [|i];
    simpl; try discriminate.
  - intros [= <-]; simpl; auto.
  - intros H; apply IH in H; exact H.
Qed.

Lemma length_zip_plies s t a (r : list V) :
  length s = length t -> length a = length t -> length r = length t ->
  length (zip_plies (Obs:=Obs) (AW:=AW) s t a r) = length t.
Proof.
  intros Hs Ha Hr; unfold zip_plies.
  rewrite length_map, !length_combine; lia.
Qed.

Lemma walk_app value (xs ys : list (RawMoveRecord Obs AW V)) :
  walk neg value (xs ++ ys) =
  let '(v1, es1) := walk neg value xs in
  let '(v2, es2) := walk neg v1 ys in
  (v2, es1 ++ es2).
Proof.
  revert value; induction xs as [|m xs IH]; intros value; simpl.
  - destruct (walk neg value ys); reflexivity.
  - destruct (terminated_flag m); [apply IH|].
    rewrite IH.
    destruct (walk neg _ xs) as [v1 es1].
    destruct (walk neg v1 ys) as [v2 es2]; reflexivity.
Qed.

(** The loop over [j] walks the plies of the game backwards. *)
Lemma ply_loop (s : list Obs) t (a : list AW) (r : list V) (n : nat)
    (buffer : list (Sample Obs AW V)) :
  length s = length t -> length a = length t -> length r = length t ->
  n <= length t ->
  for_each (ply_step neg s t a r (length t)) (seq 0 n) (None, buffer) =
  Ok (let '(v, es) := walk neg None (firstn n (rev (zip_plies s t a r))) in
      (v, buffer ++ es)).
Proof.
  intros Hs Ha Hr.
  induction n as [|n IH]; intros Hn.
  - simpl; rewrite app_nil_r; reflexivity.
  - rewrite seq_S, for_each_app, IH by lia; cbn [bind for_each Nat.add].
    pose proof (length_zip_plies s t a r Hs Ha Hr) as Hlen.
    assert (Hlt : n < length (rev (zip_plies s t a r)))
      by (rewrite length_rev; lia).
    apply nth_error_Some in Hlt.
    destruct (nth_error (rev (zip_plies s t a r)) n) as [m|] eqn:Hm;
      [clear Hlt | congruence].
    assert (Hfirst : firstn (S n) (rev (zip_plies s t a r)) =
                     firstn n (rev (zip_plies s t a r)) ++ [m]).
    { apply nth_error_split in Hm as (l1 & l2 & Heq & Hl1).
      rewrite Heq.
      rewrite firstn_app, firstn_all2 by lia.
      replace (S n - length l1) with 1 by lia.
      rewrite (firstn_app n), (firstn_all2 (n:=n) l1) by lia.
      replace (n - length l1) with 0 by lia.
      simpl; rewrite app_nil_r; reflexivity. }
    rewrite Hfirst, walk_app.
    destruct (walk neg None (firstn n (rev (zip_plies s t a r)))) as [v es].
    rewrite nth_error_rev, Hlen in Hm.
    assert (Hn' : (n <? length t) = true) by (apply Nat.ltb_lt; lia).
    rewrite Hn' in Hm.
    replace (length t - S n) with (length t - 1 - n) in Hm by lia.
    apply nth_error_zip_plies in Hm as (Hso & Hto & Hao & Hro).
    unfold ply_step.
    rewrite (getitem_Some _ _ _ Hto); simpl.
    destruct (terminated_flag m); simpl.
    + rewrite app_nil_r; reflexivity.
    + rewrite (getitem_Some _ _ _ Hso), (getitem_Some _ _ _ Hao).
      destruct v as [v|]; simpl.
      * rewrite app_assoc; reflexivity.
      * rewrite (getitem_Some _ _ _ Hro); simpl.
        rewrite app_assoc; reflexivity.
Qed.

Lemma nth_error_games (data : Trajectories Obs AW V) i (g : list (RawMoveRecord Obs AW V)) :
  nth_error (games data) i = Some g ->
  exists s t a r,
    nth_error (MoveOutput.state data) i = Some s /\
    nth_error (MoveOutput.terminated data) i = Some t /\
    nth_error (MoveOutput.action_weights data) i = Some a /\
    nth_error (MoveOutput.reward data) i = Some r /\
    g = zip_plies s t a r.
Proof.
  unfold games.
  destruct data as [ss rs ts ws]; simpl.
  revert ts ws rs i; induction ss as [|s0 ss IH];
    intros [|t0 ts] [|a0 ws] [|r0 rs] [|i]; simpl; try discriminate.
  - intros [= <-]; exists s0, t0, a0, r0; auto.
  - intros H; apply IH in H; exact H.
Qed.

Lemma length_games (data : Trajectories Obs AW V) :
  well_shaped data ->
  length (games data) = length (MoveOutput.terminated data).
Proof.
  intros (Hs & Ha & Hr).
  apply (f_equal (@length nat)) in Hs, Ha, Hr.
  unfold shape in Hs, Ha, Hr; rewrite !length_map in Hs, Ha, Hr.
  unfold games; rewrite length_map, !length_combine; lia.
Qed.

Lemma shape_nth {A B : Type} (xss : list (list A)) (yss : list (list B)) i xs ys :
  shape xss = shape yss ->
  nth_error xss i = Some xs -> nth_error yss i = Some ys ->
  length xs = length ys.
Proof.
  intros Hshape Hx Hy.
  apply (map_nth_error (@length A)) in Hx.
  apply (map_nth_error (@length B)) in Hy.
  unfold shape in Hshape; congruence.
Qed.

Lemma firstn_snoc {A : Type} (l : list A) n x :
  nth_error l n = Some x -> firstn (S n) l = firstn n l ++ [x].
Proof.
  revert n; induction l as [|y l IH]; intros [|n]; simpl; try discriminate.
  - intros [= ->]; reflexivity.
  - intros H; rewrite <- (IH n H); reflexivity.
Qed.

(** The loop over [i] compiles the games one after the other. *)
Lemma game_loop (data : Trajectories Obs AW V) n :
  well_shaped data ->
  n <= length (MoveOutput.terminated data) ->
  for_each (game_step neg data) (seq 0 n) [] =
  Ok (flat_map (fun g => snd (walk neg None (rev g))) (firstn n (games data))).
Proof.
  intros Hshape.
  induction n as [|n IH]; intros Hn; [reflexivity|].
  rewrite seq_S, for_each_app, IH by lia; cbn [bind for_each Nat.add].
  assert (Hlt : n < length (games data))
    by (rewrite length_games by assumption; lia).
  apply nth_error_Some in Hlt.
  destruct (nth_error (games data) n) as [g|] eqn:Hg; [clear Hlt|congruence].
  rewrite (firstn_snoc _ _ _ Hg), flat_map_app; simpl; rewrite app_nil_r.
  apply nth_error_games in Hg as (s & t & a & r & Hs & Ht & Ha & Hr & ->).
  destruct Hshape as (Hss & Has & Hrs).
  pose proof (shape_nth _ _ _ _ _ Hss Hs Ht) as Hls.
  pose proof (shape_nth _ _ _ _ _ Has Ha Ht) as Hla.
  pose proof (shape_nth _ _ _ _ _ Hrs Hr Ht) as Hlr.
  unfold game_step.
  rewrite (getitem_Some _ _ _ Hs), (getitem_Some _ _ _ Ht),
    (getitem_Some _ _ _ Ha), (getitem_Some _ _ _ Hr); cbn [bind].
  rewrite (ply_loop s t a r (length t) _ Hls Hla Hlr (Nat.le_refl _)).
  rewrite firstn_all2
    by (rewrite length_rev, (length_zip_plies s t a r Hls Hla Hlr); lia).
  destruct (walk neg None (rev (zip_plies s t a r))); reflexivity.
Qed.

Lemma walk_live value (plies : list (RawMoveRecord Obs AW V)) :
  walk neg value plies = walk neg value (filter (@live Obs AW V) plies).
Proof.
  revert value; induction plies as [|m plies IH]; intros value; simpl; auto.
  unfold live at 1.
  destruct (terminated_flag m) eqn:Hm; simpl; [apply IH|].
  rewrite Hm, IH; reflexivity.
Qed.

Lemma walk_label r k (plies : list (RawMoveRecord Obs AW V)) :
  forallb (@live Obs AW V) plies = true ->
  snd (walk neg (Some (Nat.iter k neg r)) plies) = label neg r (S k) plies.
Proof.
  revert k; induction plies as [|m plies IH]; intros k; simpl; auto.
  unfold live at 1; intros H; apply andb_true_iff in H as [Hm Hall].
  apply negb_true_iff in Hm; rewrite Hm.
  specialize (IH (S k) Hall); simpl in IH.
  destruct (walk neg _ plies); simpl in *; congruence.
Qed.

Lemma forallb_filter {A : Type} (f : A -> bool) l :
  forallb f (filter f l) = true.
Proof.
  induction l as [|x l IH]; simpl; auto.
  destruct (f x) eqn:Hx; simpl; [rewrite Hx|]; auto.
Qed.

Lemma forallb_live_backwards (game : list (RawMoveRecord Obs AW V)) :
  forallb (@live Obs AW V) (live_plies_backwards game) = true.
Proof.
  unfold live_plies_backwards; rewrite <- filter_rev; apply forallb_filter.
Qed.

Lemma walk_compiled (game : list (RawMoveRecord Obs AW V)) :
  snd (walk neg None (rev game)) = compiled_game neg game.
Proof.
  rewrite walk_live, filter_rev.
  pose proof (forallb_live_backwards game) as Hall.
  unfold compiled_game, live_plies_backwards in *.
  destruct (rev (filter (@live Obs AW V) game)) as [|m plies]; [reflexivity|].
  simpl in Hall; apply andb_true_iff in Hall as [Hm Hall].
  unfold live in Hm; apply negb_true_iff in Hm.
  simpl; rewrite Hm.
  pose proof (walk_label (move_reward m) 0 plies Hall) as H; simpl in H.
  destruct (walk neg _ plies); simpl in *; congruence.
Qed.

(** The compiler, game by game. *)
Lemma prepare_training_data_games (data : Trajectories Obs AW V) :
  well_shaped data ->
  prepare_training_data neg data =
  Ok (flat_map (compiled_game neg) (games data)).
Proof.
  intros Hshape; unfold prepare_training_data.
  rewrite game_loop by auto.
  rewrite firstn_all2 by (rewrite length_games by assumption; lia).
  f_equal; apply flat_map_ext; intros g; apply walk_compiled.
Qed.

(** *** The examples of one game *)

Lemma label_plies r k (plies : list (RawMoveRecord Obs AW V)) :
  map (fun e => (TrainingExample.state e, TrainingExample.action_weights e))
      (label neg r k plies) =
  map (fun m => (observation m, weights m)) plies.
Proof.
  revert k; induction plies as [|m plies IH]; intros k; simpl;
    [|rewrite IH]; reflexivity.
Qed.

Lemma label_value r k (plies : list (RawMoveRecord Obs AW V)) j e :
  nth_error (label neg r k plies) j = Some e ->
  TrainingExample.value e = Nat.iter (k + j) neg r.
Proof.
  revert k j; induction plies as [|m plies IH]; intros k [|j]; simpl;
    try discriminate.
  - intros [= <-]; rewrite Nat.add_0_r; reflexivity.
  - intros H; apply IH in H; rewrite H.
    replace (k + S j) with (S k + j) by lia; reflexivity.
Qed.

Lemma compiled_game_plies (game : list (RawMoveRecord Obs AW V)) :
  map (fun e => (TrainingExample.state e, TrainingExample.action_weights e))
      (compiled_game neg game) =
  map (fun m => (observation m, weights m)) (live_plies_backwards game).
Proof.
  unfold compiled_game.
  destruct (live_plies_backwards game) as [|m plies]; [reflexivity|].
  apply label_plies.
Qed.

Lemma length_compiled_game (game : list (RawMoveRecord Obs AW V)) :
  length (compiled_game neg game) = length (filter (@live Obs AW V) game).
Proof.
  pose proof (f_equal (@length _) (compiled_game_plies game)) as H.
  rewrite !length_map in H.
  transitivity (length (live_plies_backwards game)); [exact H|].
  unfold live_plies_backwards; apply length_rev.
Qed.

Lemma compiled_game_value (game : list (RawMoveRecord Obs AW V)) k e :
  nth_error (compiled_game neg game) k = Some e ->
  exists r, final_reward game = Some r /\
            TrainingExample.value e = Nat.iter k neg r.
Proof.
  unfold compiled_game, final_reward.
  destruct (live_plies_backwards game) as [|m plies];
    [destruct k; discriminate|].
  intros H; exists (move_reward m); split; [reflexivity|].
  apply (label_value _ 0 _ _ _ H).
Qed.

Lemma iter_neg_involutive r k :
  (forall v, neg (neg v) = v) ->
  Nat.iter k neg r = if Nat.even k then r else neg r.
Proof.
  intros Hneg.
  assert (H : Nat.iter k neg r = (if Nat.even k then r else neg r) /\
              Nat.iter (S k) neg r = (if Nat.even k then neg r else r)).
  { induction k as [|k [IH1 IH2]]; [split; reflexivity|].
    split; [rewrite IH2, Nat.even_succ, <- Nat.negb_even;
            destruct (Nat.even k); reflexivity|].
    change (Nat.iter (S (S k)) neg r) with (neg (Nat.iter (S k) neg r)).
    rewrite IH2, Nat.even_succ, <- Nat.negb_even.
    destruct (Nat.even k); simpl; [apply Hneg | reflexivity]. }
  apply H.
Qed.

Lemma Forall2_map_self {A B : Type} (P : A -> B -> Prop) (f : A -> B) l :
  (forall x, P x (f x)) -> Forall2 P l (map f l).
Proof. intros H; induction l; simpl; constructor; auto. Qed.

(** C1 (backward value propagation).  On trajectories of one shape the
    compiler returns, game after game, one example per ply that is not
    padding, last ply first.  With [r] the reward of the last such ply of
    the game, the first of these examples has value [r] and every further
    one (an earlier ply) the negation of the value before it (the next
    later ply); when the negation is an involution the values are
    [r], [neg r], [r], [neg r], ... and a game of four such plies has the
    values [neg r], [r], [neg r], [r] from its earliest to its latest
    ply. *)
Theorem backward_value_propagation (data : Trajectories Obs AW V) :
  well_shaped data ->
  exists segments,
    prepare_training_data neg data = Ok (concat segments) /\
    Forall2
      (fun game seg =>
         map (fun e => (TrainingExample.state e,
                        TrainingExample.action_weights e)) seg =
         map (fun m => (observation m, weights m))
             (live_plies_backwards game) /\
         forall r, final_reward game = Some r ->
           option_map (@TrainingExample.value _ _ _) (hd_error seg) = Some r /\
           (forall k e e',
               nth_error seg k = Some e -> nth_error seg (S k) = Some e' ->
               TrainingExample.value e' = neg (TrainingExample.value e)) /\
           ((forall v, neg (neg v) = v) ->
            (forall k e, nth_error seg k = Some e ->
               TrainingExample.value e = if Nat.even k then r else neg r) /\
            (length (live_plies_backwards game) = 4 ->
             map (@TrainingExample.value _ _ _) (rev seg) =
             [neg r; r; neg r; r])))
      (games data) segments.
Proof.
  intros Hshape.
  exists (map (compiled_game neg) (games data)); split.
  - rewrite <- flat_map_concat_map.
    apply prepare_training_data_games, Hshape.
  - apply Forall2_map_self; intros game.
    split; [apply compiled_game_plies|].
    intros r Hr.
    assert (Hval : forall k e, nth_error (compiled_game neg game) k = Some e ->
                               TrainingExample.value e = Nat.iter k neg r).
    { intros k e He.
      destruct (compiled_game_value game k e He) as (r' & Hr' & ->).
      congruence. }
    repeat split.
    + pose proof (length_compiled_game game) as Hlen.
      unfold final_reward, live_plies_backwards in Hr.
      rewrite <- (length_rev (filter _ _)) in Hlen.
      destruct (compiled_game neg game) as [|e seg] eqn:Hseg.
      * destruct (rev (filter _ game)); simpl in *; discriminate.
      * simpl; f_equal; apply (Hval 0 e); reflexivity.
    + intros k e e' He He'.
      rewrite (Hval _ _ He), (Hval _ _ He'); reflexivity.
    + intros k e He.
      rewrite (Hval _ _ He); apply iter_neg_involutive; assumption.
    + intros Hfour.
      pose proof (length_compiled_game game) as Hlen.
      unfold live_plies_backwards in Hfour.
      rewrite length_rev in Hfour; rewrite Hfour in Hlen.
      destruct (compiled_game neg game) as [|e0 [|e1 [|e2 [|e3 [|e4 seg]]]]];
        try discriminate.
      simpl.
      rewrite (Hval 0 e0), (Hval 1 e1), (Hval 2 e2), (Hval 3 e3)
        by reflexivity.
      simpl; rewrite !H; reflexivity.
Qed.

(** *** Padding *)

Lemma length_keep_live {A : Type} (t : list bool) (xs : list A) :
  length xs = length t ->
  length (keep_live t xs) = length (filter negb t).
Proof.
  unfold keep_live; rewrite length_map.
  revert xs; induction t as [|b t IH]; intros [|x xs]; simpl;
    try discriminate; auto.
  intros [= H]; destruct b; simpl; auto.
Qed.

Lemma shape_keep_live_rows {A : Type} (flags : list (list bool))
    (xss : list (list A)) :
  shape xss = shape flags ->
  shape (keep_live_rows flags xss) =
  map (fun t => length (filter negb t)) flags.
Proof.
  unfold shape, keep_live_rows.
  revert xss; induction flags as [|t flags IH]; intros [|xs xss]; simpl;
    try discriminate; auto.
  intros [= Hlen Hrest].
  rewrite (length_keep_live _ _ Hlen), IH by assumption; reflexivity.
Qed.

Lemma well_shaped_drop_padding (data : Trajectories Obs AW V) :
  well_shaped data -> well_shaped (drop_padding data).
Proof.
  intros (Hs & Ha & Hr); unfold well_shaped, drop_padding; simpl.
  rewrite !shape_keep_live_rows by auto; auto.
Qed.

Lemma zip_keep_live (s : list Obs) t (a : list AW) (r : list V) :
  length s = length t -> length a = length t -> length r = length t ->
  zip_plies (keep_live t s) (keep_live t t) (keep_live t a) (keep_live t r) =
  filter (@live Obs AW V) (zip_plies s t a r).
Proof.
  unfold zip_plies, keep_live.
  revert s a r; induction t as [|b t IH]; intros [|s0 s] [|a0 a] [|r0 r];
    simpl; try discriminate; auto.
  intros [= Hs] [= Ha] [= Hr].
  unfold live at 1; simpl.
  destruct b; simpl; rewrite IH by assumption; reflexivity.
Qed.

Lemma games_drop_padding (data : Trajectories Obs AW V) :
  well_shaped data ->
  games (drop_padding data) = map (filter (@live Obs AW V)) (games data).
Proof.
  destruct data as [ss rs ts ws].
  unfold well_shaped, drop_padding, games, keep_live_rows, shape; simpl.
  intros (Hs & Ha & Hr).
  revert ss ws rs Hs Ha Hr; induction ts as [|t ts IH];
    intros [|s ss] [|a ws] [|r rs]; simpl; try discriminate; auto.
  intros [= Hs Hss] [= Ha Has] [= Hr Hrs].
  rewrite zip_keep_live, IH by assumption; reflexivity.
Qed.

Lemma filter_filter {A : Type} (f : A -> bool) l :
  filter f (filter f l) = filter f l.
Proof.
  induction l as [|x l IH]; simpl; auto.
  destruct (f x) eqn:Hx; simpl; [rewrite Hx, IH|]; auto.
Qed.

Lemma compiled_game_filter (game : list (RawMoveRecord Obs AW V)) :
  compiled_game neg (filter (@live Obs AW V) game) = compiled_game neg game.
Proof.
  unfold compiled_game, live_plies_backwards.
  rewrite filter_filter; reflexivity.
Qed.

Lemma filter_live_padding (game : list (RawMoveRecord Obs AW V)) :
  forallb (@terminated_flag Obs AW V) game = true ->
  filter (@live Obs AW V) game = [].
Proof.
  induction game as [|m game IH]; simpl; auto.
  intros H; apply andb_true_iff in H as [Hm Hall].
  unfold live at 1; rewrite Hm; simpl; auto.
Qed.

(** C2 (padding exclusion).  On trajectories of one shape the examples of
    a game are, in the order of emission, those of its plies whose flag
    [terminated] is false, one example for each of them and none for a
    ply whose flag is true; a game all of whose plies are terminated has
    no example; and the compiler returns the same buffer on the
    trajectories from which the terminated plies were removed: they take no
    part in the propagation of the values. *)
Theorem padding_exclusion (data : Trajectories Obs AW V) :
  well_shaped data ->
  (exists segments,
      prepare_training_data neg data = Ok (concat segments) /\
      Forall2
        (fun game seg =>
           map (fun e => (TrainingExample.state e,
                          TrainingExample.action_weights e)) seg =
           map (fun m => (observation m, weights m))
               (rev (filter (fun m => negb (terminated_flag m)) game)) /\
           length seg =
           length (filter (fun m => negb (terminated_flag m)) game) /\
           (forallb (@terminated_flag Obs AW V) game = true -> seg = []))
        (games data) segments) /\
  prepare_training_data neg (drop_padding data) =
  prepare_training_data neg data.
Proof.
  intros Hshape; split.
  - exists (map (compiled_game neg) (games data)); split.
    + rewrite <- flat_map_concat_map.
      apply prepare_training_data_games, Hshape.
    + apply Forall2_map_self; intros game.
      split; [apply compiled_game_plies|].
      split; [apply length_compiled_game|].
      intros Hall.
      pose proof (length_compiled_game game) as Hlen.
      rewrite (filter_live_padding _ Hall) in Hlen.
      destruct (compiled_game neg game); [reflexivity | discriminate].
  - rewrite !prepare_training_data_games
      by auto using well_shaped_drop_padding.
    rewrite games_drop_padding by assumption.
    rewrite !flat_map_concat_map, map_map.
    do 2 f_equal; apply map_ext; intros g; apply compiled_game_filter.
Qed.

(** *** Rewards before the last ply *)

Lemma strip_zip_plies (s : list Obs) t (a : list AW) (r : list V) :
  length r = length t ->
  map (@strip Obs AW V) (zip_plies s t a r) = combine s (combine t a).
Proof.
  unfold zip_plies.
  revert t a r; induction s as [|s0 s IH]; intros [|t0 t] [|a0 a] [|r0 r];
    simpl; try discriminate; auto.
  intros [= Hr]; rewrite IH by assumption; reflexivity.
Qed.

Lemma strip_filter_live (g g' : list (RawMoveRecord Obs AW V)) :
  map (@strip Obs AW V) g' = map (@strip Obs AW V) g ->
  map (@strip Obs AW V) (filter (@live Obs AW V) g') =
  map (@strip Obs AW V) (filter (@live Obs AW V) g).
Proof.
  revert g'; induction g as [|m g IH]; intros [|m' g']; simpl;
    try discriminate; auto.
  intros [= Ho Ht Hw Hrest].
  assert (Hl : live m' = live m) by (unfold live; rewrite Ht; reflexivity).
  rewrite Hl; destruct (live m); simpl; [|apply IH; assumption].
  f_equal; [unfold strip; congruence | apply IH; assumption].
Qed.

Lemma label_strip r k (l l' : list (RawMoveRecord Obs AW V)) :
  map (@strip Obs AW V) l' = map (@strip Obs AW V) l -> label neg r k l' = label neg r k l.
Proof.
  revert k l'; induction l as [|m l IH]; intros k [|m' l']; simpl;
    try discriminate; auto.
  intros [= Ho Ht Hw Hrest].
  rewrite Ho, Hw, (IH _ _ Hrest); reflexivity.
Qed.

Lemma compiled_game_rewards (g g' : list (RawMoveRecord Obs AW V)) :
  map (@strip Obs AW V) g' = map (@strip Obs AW V) g ->
  final_reward g' = final_reward g ->
  compiled_game neg g' = compiled_game neg g.
Proof.
  intros Hstrip Hfinal.
  apply strip_filter_live in Hstrip.
  apply (f_equal (@rev _)) in Hstrip; rewrite <- !map_rev in Hstrip.
  unfold compiled_game, final_reward, live_plies_backwards in *.
  destruct (rev (filter _ g')) as [|m' l'], (rev (filter _ g)) as [|m l];
    try discriminate; auto.
  simpl in Hfinal; injection Hfinal as Hfinal.
  rewrite Hfinal; apply label_strip, Hstrip.
Qed.

Lemma iter_neg_cases r k :
  (forall v, neg (neg v) = v) ->
  Nat.iter k neg r = r \/ Nat.iter k neg r = neg r.
Proof.
  intros Hneg; rewrite (iter_neg_involutive r k Hneg).
  destruct (Nat.even k); auto.
Qed.

(** C9 (only the final reward matters).  Take two batches of trajectories
    of one shape with the same states, flags and action weights, whose
    rewards agree, in every game, at the last ply that is not padding (and
    are anything elsewhere): the compiler returns the same buffer on both.
    When the negation is an involution, every value of an example of a game
    is the reward [r] of that last ply or [neg r]. *)
Theorem only_final_reward_matters (data data' : Trajectories Obs AW V) :
  well_shaped data -> well_shaped data' ->
  MoveOutput.state data' = MoveOutput.state data ->
  MoveOutput.terminated data' = MoveOutput.terminated data ->
  MoveOutput.action_weights data' = MoveOutput.action_weights data ->
  map (@final_reward Obs AW V) (games data') =
  map (@final_reward Obs AW V) (games data) ->
  prepare_training_data neg data' = prepare_training_data neg data /\
  ((forall v, neg (neg v) = v) ->
   exists segments,
     prepare_training_data neg data = Ok (concat segments) /\
     Forall2
       (fun game seg =>
          forall e, In e seg ->
            exists r, final_reward game = Some r /\
                      (TrainingExample.value e = r \/
                       TrainingExample.value e = neg r))
       (games data) segments).
Proof.
  intros Hshape Hshape' Hstate Hterm Hweights Hfinal; split.
  - rewrite !prepare_training_data_games by assumption.
    rewrite !flat_map_concat_map; do 2 f_equal.
    apply nth_error_ext; intros i.
    rewrite !nth_error_map.
    pose proof (length_games _ Hshape) as Hlen.
    pose proof (length_games _ Hshape') as Hlen'.
    rewrite Hterm, <- Hlen in Hlen'.
    destruct (nth_error (games data) i) as [g|] eqn:Hg.
    + assert (Hlt : i < length (games data'))
        by (rewrite Hlen'; apply nth_error_Some; congruence).
      apply nth_error_Some in Hlt.
      destruct (nth_error (games data') i) as [g'|] eqn:Hg'; [|congruence].
      simpl; f_equal.
      apply (f_equal (fun l => nth_error l i)) in Hfinal.
      rewrite !nth_error_map, Hg, Hg' in Hfinal; simpl in Hfinal.
      injection Hfinal as Hfinal.
      apply compiled_game_rewards; [|assumption].
      apply nth_error_games in Hg as (s & t & a & r & Hs & Ht & Ha & Hr & ->).
      apply nth_error_games in Hg'
        as (s' & t' & a' & r' & Hs' & Ht' & Ha' & Hr' & ->).
      rewrite Hstate, Hs in Hs'; rewrite Hterm, Ht in Ht'.
      rewrite Hweights, Ha in Ha'.
      injection Hs' as <-; injection Ht' as <-; injection Ha' as <-.
      destruct Hshape as (_ & _ & Hrs), Hshape' as (_ & _ & Hrs').
      rewrite !strip_zip_plies; [reflexivity| |].
      * exact (shape_nth _ _ _ _ _ Hrs Hr Ht).
      * rewrite Hterm in Hrs'.
        exact (shape_nth _ _ _ _ _ Hrs' Hr' Ht).
    + apply nth_error_None in Hg; rewrite <- Hlen' in Hg.
      apply nth_error_None in Hg; rewrite Hg; reflexivity.
  - intros Hneg.
    exists (map (compiled_game neg) (games data)); split.
    + rewrite <- flat_map_concat_map.
      apply prepare_training_data_games, Hshape.
    + apply Forall2_map_self; intros game e He.
      apply In_nth_error in He as (k & He).
      apply compiled_game_value in He as (r & Hr & ->).
      exists r; split; [assumption|apply iter_neg_cases, Hneg].
Qed.

End CompilerFacts.

Section SelfPlayFacts.

Variables Agent Env Key Obs Logits Val Action AW Rew Mask : Type.

Variable split : Key -> nat -> list Key.
Variable reset_env : Env -> Env.
Variable canonical_observation : Env -> Obs.
Variable is_terminated : Env -> bool.
Variable invalid_actions : Env -> Mask.
Variable batched_policy : Agent -> list Obs -> list Logits * list Val.
Variable gumbel_muzero_policy :
  Agent -> Key -> list Logits * list Val * list Env -> list Mask ->
  list Action * list AW.
Variable env_step : Env -> Action -> Env * Rew.

(** [jax.random.split(key, n)] returns [n] keys. *)
Hypothesis split_length : forall key n, length (split key n) = n.

Local Notation "'driver'" :=
  (collect_batched_selfplay_data split reset_env canonical_observation
     is_terminated invalid_actions batched_policy gumbel_muzero_policy env_step)
  (only parsing).

Local Notation "'one_move'" :=
  (single_move split canonical_observation is_terminated invalid_actions
     batched_policy gumbel_muzero_policy env_step)
  (only parsing).

Lemma split2_ok key : exists a b, split2 split key = Ok (a, b).
Proof.
  unfold split2.
  pose proof (split_length key 2) as Hlen.
  destruct (split key 2) as [|a [|b [|c l]]]; try discriminate.
  exists a, b; reflexivity.
Qed.

Lemma single_move_ok agent env key :
  exists env' key' out,
    one_move agent (env, key) = Ok ((env', key'), out) /\
    MoveOutput.terminated out = map is_terminated env.
Proof.
  unfold single_move.
  destruct (split2_ok key) as (a & b & ->); cbn [bind].
  destruct (batched_policy agent _) as [prior_logits value].
  destruct (gumbel_muzero_policy agent a _ _) as [action action_weights].
  do 3 eexists; split; reflexivity.
Qed.

Lemma scan_ok agent n : forall env key,
  exists final outs,
    scan (one_move agent) (env, key) n = Ok (final, outs) /\
    length outs = n /\
    (0 < n ->
     option_map (@MoveOutput.terminated _ _ _ _) (hd_error outs) =
     Some (map is_terminated env)).
Proof.
  induction n as [|n IH]; intros env key; cbn [scan].
  - exists (env, key), []; repeat split; simpl; lia.
  - destruct (single_move_ok agent env key) as (env' & key' & out & -> & Hout).
    cbn [bind].
    destruct (IH env' key') as (final & outs & -> & Hlen & _); cbn [bind].
    exists final, (out :: outs); repeat split; simpl; [lia|].
    intros _; rewrite Hout; reflexivity.
Qed.

(** The driver returns the trajectories of [batch_size] games. *)
Lemma driver_ok agent env key batch_size :
  exists batch,
    driver agent env key batch_size = Ok batch /\
    n_games batch = batch_size.
Proof.
  unfold collect_batched_selfplay_data.
  destruct (scan_ok agent 4 (replicate (reset_env env) batch_size) key)
    as (final & outs & Hscan & Hlen & Hhd).
  rewrite Hscan; cbn [bind].
  eexists; split; [reflexivity|].
  unfold n_games; simpl.
  specialize (Hhd ltac:(lia)).
  destruct outs as [|out outs]; [discriminate|].
  simpl in Hhd; injection Hhd as Hhd.
  simpl; rewrite length_map, length_seq, Hhd, length_map.
  apply repeat_length.
Qed.

(** The loop over the keys calls the driver once per key, in order. *)
Lemma batches_loop agent env batch_size keys : forall data,
  exists batches,
    for_each
      (fun data rng_key =>
         batch <- driver agent env rng_key batch_size ;; Ok (data ++ [batch]))
      keys data = Ok (data ++ batches) /\
    Forall2 (fun key batch => driver agent env key batch_size = Ok batch)
            keys batches.
Proof.
  induction keys as [|key keys IH]; intros data; simpl.
  - exists []; rewrite app_nil_r; split; constructor.
  - destruct (driver_ok agent env key batch_size) as (batch & Hbatch & _).
    rewrite Hbatch; cbn [bind].
    destruct (IH (data ++ [batch])) as (batches & -> & Hall).
    exists (batch :: batches); rewrite <- app_assoc; split; [reflexivity|].
    constructor; assumption.
Qed.

Lemma selfplay_batches_ok agent env key batch_size N :
  exists batches,
    selfplay_batches split reset_env canonical_observation is_terminated
      invalid_actions batched_policy gumbel_muzero_policy env_step
      agent env key batch_size N = Ok batches /\
    Forall2 (fun key batch => driver agent env key batch_size = Ok batch)
            (split key N) batches /\
    length batches = N.
Proof.
  unfold selfplay_batches.
  destruct (batches_loop agent env batch_size (split key N) [])
    as (batches & Hloop & Hall).
  exists batches; split; [exact Hloop|]; split; [exact Hall|].
  apply Forall2_length in Hall; rewrite <- Hall; apply split_length.
Qed.

Lemma n_games_batches agent env batch_size keys batches :
  Forall2 (fun key batch => driver agent env key batch_size = Ok batch)
          keys batches ->
  length (concat (map (@MoveOutput.terminated _ _ _ _) batches)) =
  length batches * batch_size.
Proof.
  induction 1 as [|key batch keys batches Hbatch _ IH]; [reflexivity|].
  simpl; rewrite length_app, IH; f_equal.
  destruct (driver_ok agent env key batch_size) as (batch' & Hbatch' & Hn).
  rewrite Hbatch in Hbatch'; injection Hbatch' as <-; exact Hn.
Qed.

Lemma floordiv_pos a b : 0 < b -> floordiv a b = Ok (a / b).
Proof. destruct b; [lia | reflexivity]. Qed.

Lemma tree_concatenate_ok (data : list (Trajectories Obs AW Rew)) :
  0 < length data ->
  tree_concatenate data =
  Ok (MoveOutput.Build
        (concat (map (@MoveOutput.state _ _ _ _) data))
        (concat (map (@MoveOutput.reward _ _ _ _) data))
        (concat (map (@MoveOutput.terminated _ _ _ _) data))
        (concat (map (@MoveOutput.action_weights _ _ _ _) data))).
Proof. destruct data; simpl; [lia | reflexivity]. Qed.

(** Below one batch there is no call of the driver and no result. *)
Lemma collect_selfplay_data_small agent env rng_key batch_size data_size :
  data_size < batch_size ->
  selfplay_batches split reset_env canonical_observation is_terminated
    invalid_actions batched_policy gumbel_muzero_policy env_step
    agent env rng_key batch_size (data_size / batch_size) = Ok [] /\
  collect_selfplay_data split reset_env canonical_observation
    is_terminated invalid_actions batched_policy gumbel_muzero_policy
    env_step agent env rng_key batch_size data_size = Raise TypeError.
Proof.
  intros Hlt.
  destruct (selfplay_batches_ok agent env rng_key batch_size
              (data_size / batch_size)) as (batches & Hloop & _ & Hlen).
  rewrite Nat.div_small in Hlen by assumption.
  destruct batches; [|discriminate].
  split; [exact Hloop|].
  unfold collect_selfplay_data.
  rewrite floordiv_pos by lia; cbn [bind].
  rewrite Hloop; reflexivity.
Qed.

(** C8 (corpus collection), amended.  For a batch size [B] of at least one
    and a [data_size] of at least [B], [collect_selfplay_data] calls the
    batched driver once for each of the [data_size / B] keys split from the
    master key, in their order, and returns the four arrays of the batches
    concatenated along the axis of the games. *)
Theorem corpus_collection agent env rng_key batch_size data_size :
  0 < batch_size -> batch_size <= data_size ->
  corpus_collected split reset_env canonical_observation is_terminated
    invalid_actions batched_policy gumbel_muzero_policy env_step
    agent env rng_key batch_size data_size.
Proof.
  intros Hpos Hle.
  destruct (selfplay_batches_ok agent env rng_key batch_size
              (data_size / batch_size)) as (batches & Hloop & Hall & Hlen).
  exists batches; split; [exact Hall|]; split; [exact Hlen|].
  unfold collect_selfplay_data.
  rewrite floordiv_pos by assumption; cbn [bind].
  rewrite Hloop; cbn [bind].
  apply tree_concatenate_ok.
  rewrite Hlen; apply Nat.div_str_pos; lia.
Qed.

(** C10 (truncation of the floor division), amended.  For a batch size [B]
    of at least one that does not divide [data_size] and a [data_size] of
    at least [B], the driver is called [data_size / B] times and the
    result holds [data_size / B * B] games, fewer than [data_size], without
    an exception.  For a [data_size] below [B] there is no call of the
    driver and no result: the concatenation of no batch raises
    [TypeError]. *)
Theorem floor_division_truncation agent env rng_key batch_size data_size :
  (0 < batch_size -> batch_size <= data_size ->
   data_size mod batch_size <> 0 ->
   corpus_truncated split reset_env canonical_observation is_terminated
     invalid_actions batched_policy gumbel_muzero_policy env_step
     agent env rng_key batch_size data_size) /\
  (data_size < batch_size ->
   selfplay_batches split reset_env canonical_observation is_terminated
     invalid_actions batched_policy gumbel_muzero_policy env_step
     agent env rng_key batch_size (data_size / batch_size) = Ok [] /\
   collect_selfplay_data split reset_env canonical_observation
     is_terminated invalid_actions batched_policy gumbel_muzero_policy
     env_step agent env rng_key batch_size data_size = Raise TypeError).
Proof.
  split; [|apply collect_selfplay_data_small].
  intros Hpos Hle Hmod.
  destruct (selfplay_batches_ok agent env rng_key batch_size
              (data_size / batch_size)) as (batches & Hloop & Hall & Hlen).
  eexists batches, _; split; [exact Hloop|]; split; [exact Hlen|].
  unfold collect_selfplay_data.
  rewrite floordiv_pos by assumption; cbn [bind].
  rewrite Hloop; cbn [bind].
  rewrite tree_concatenate_ok
    by (rewrite Hlen; apply Nat.div_str_pos; lia).
  split; [reflexivity|].
  unfold n_games; simpl.
  rewrite (n_games_batches _ _ _ _ _ Hall), Hlen.
  split; [reflexivity|].
  pose proof (Nat.div_mod_eq data_size batch_size); lia.
Qed.

End SelfPlayFacts.

Section LossFacts.

Local Open Scope R_scope.

Lemma Rsum_exp_pos (xs : list R) : xs <> [] -> 0 < Rsum (map exp xs).
Proof.
  assert (H : 0 <= Rsum (map exp xs)).
  { induction xs as [|x xs IH]; simpl; [lra|].
    pose proof (exp_pos x); lra. }
  destruct xs as [|x xs]; [congruence|]; intros _; simpl.
  assert (H' : 0 <= Rsum (map exp xs)).
  { clear H; induction xs as [|y xs IH]; simpl; [lra|].
    pose proof (exp_pos y); lra. }
  pose proof (exp_pos x); lra.
Qed.

Lemma Rsum_exp_shift c (xs : list R) :
  Rsum (map exp (map (fun x => x - c) xs)) = Rsum (map exp xs) * exp (- c).
Proof.
  induction xs as [|x xs IH]; simpl; [ring|].
  rewrite IH; unfold Rminus; rewrite exp_plus; ring.
Qed.

(** The exponentials of [log_softmax] are a distribution. *)
Lemma Rsum_softmax (xs : list R) : xs <> [] -> Rsum (softmax xs) = 1.
Proof.
  intros Hxs; unfold softmax, log_softmax.
  rewrite Rsum_exp_shift, exp_Ropp, exp_ln by (apply Rsum_exp_pos, Hxs).
  apply Rinv_r.
  pose proof (Rsum_exp_pos xs Hxs); lra.
Qed.

Lemma length_log_softmax xs : length (log_softmax xs) = length xs.
Proof. apply length_map. Qed.

(** One term of the sum of [kl_row]. *)
Lemma kl_term a b : exp a - exp b <= exp a * (a - b).
Proof.
  pose proof (exp_ineq1_le (b - a)) as H.
  pose proof (exp_pos a) as Ha.
  assert (Hb : exp b = exp a * exp (b - a))
    by (rewrite <- exp_plus; f_equal; ring).
  rewrite Hb; nra.
Qed.

Lemma kl_term_strict a b : a <> b -> exp a - exp b < exp a * (a - b).
Proof.
  intros Hab.
  assert (Hne : b - a <> 0) by lra.
  pose proof (exp_ineq1 (b - a) Hne) as H.
  pose proof (exp_pos a) as Ha.
  assert (Hb : exp b = exp a * exp (b - a))
    by (rewrite <- exp_plus; f_equal; ring).
  rewrite Hb; nra.
Qed.

Lemma kl_row_cons a l b t :
  kl_row (map exp (a :: l)) (a :: l) (b :: t) =
  exp a * (a - b) + kl_row (map exp l) l t.
Proof. reflexivity. Qed.

Lemma kl_row_lower (l t : list R) :
  length l = length t ->
  Rsum (map exp l) - Rsum (map exp t) <= kl_row (map exp l) l t.
Proof.
  revert t; induction l as [|a l IH]; intros [|b t]; try discriminate.
  - intros _; unfold kl_row; simpl; lra.
  - intros [= Hlen]; rewrite kl_row_cons; simpl.
    pose proof (kl_term a b); pose proof (IH t Hlen); lra.
Qed.

Lemma kl_row_tight (l t : list R) :
  length l = length t ->
  kl_row (map exp l) l t = Rsum (map exp l) - Rsum (map exp t) ->
  l = t.
Proof.
  revert t; induction l as [|a l IH]; intros [|b t]; try discriminate; auto.
  intros [= Hlen]; rewrite kl_row_cons; simpl; intros Heq.
  pose proof (kl_term a b) as Hterm.
  pose proof (kl_row_lower l t Hlen) as Hrest.
  destruct (Req_dec a b) as [->|Hab].
  - f_equal; apply IH; [assumption | lra].
  - pose proof (kl_term_strict a b Hab); lra.
Qed.

Lemma kl_row_refl (l : list R) : kl_row (map exp l) l l = 0.
Proof.
  induction l as [|a l IH]; [reflexivity|].
  rewrite kl_row_cons, IH; ring.
Qed.

Lemma mean_singleton x : mean [x] = x.
Proof. unfold mean; simpl; field. Qed.

Lemma Rsum_nonneg (xs : list R) : Forall (fun x => 0 <= x) xs -> 0 <= Rsum xs.
Proof. induction 1; simpl; lra. Qed.

Lemma mean_nonneg (xs : list R) : Forall (fun x => 0 <= x) xs -> 0 <= mean xs.
Proof.
  intros H; unfold mean, Rdiv.
  apply Rmult_le_pos; [apply Rsum_nonneg, H|].
  destruct xs as [|x xs]; [simpl; rewrite Rinv_0; lra|].
  left; apply Rinv_0_lt_compat, lt_0_INR; simpl; lia.
Qed.

Lemma l2_loss_nonneg p t : 0 <= l2_loss p t.
Proof. unfold l2_loss; pose proof (Rle_0_sqr (p - t)); lra. Qed.

Lemma Forall_map2 {A B C : Type} (P : C -> Prop) (f : A -> B -> C) xs ys :
  (forall x y, P (f x y)) -> Forall P (map2 f xs ys).
Proof.
  intros H; unfold map2; apply Forall_map, Forall_forall.
  intros [x y] _; apply H.
Qed.

(** The value loss is not negative. *)
Lemma value_loss_nonneg {Net Obs : Type}
    (batched_policy : Net -> list Obs -> list (list R) * list R) net data :
  0 <= value_loss batched_policy net data.
Proof.
  unfold value_loss, loss_fn.
  destruct (batched_policy net _) as [action_logits value]; simpl.
  apply mean_nonneg, Forall_map2; intros; apply l2_loss_nonneg.
Qed.

(** *** The loss of the code and the divergence of the specification *)

Lemma floored_log_exp x : floored_log (exp x) = clip (-50) x.
Proof.
  unfold floored_log, clip.
  destruct (Rlt_dec 0 (exp x)) as [_|Hneg]; [rewrite ln_exp; reflexivity|].
  pose proof (exp_pos x); lra.
Qed.

Lemma kl_row_softmax_target (l t : list R) :
  kl_row (map exp l) l (map (clip (-50)) t) =
  Rsum (map2 (fun lp q => exp lp * (lp - floored_log q)) l (map exp t)).
Proof.
  revert t; induction l as [|a l IH]; intros [|b t]; try reflexivity.
  change (map (clip (-50)) (b :: t)) with (clip (-50) b :: map (clip (-50)) t).
  rewrite kl_row_cons, IH; simpl.
  rewrite floored_log_exp; reflexivity.
Qed.

Lemma kl_rows_softmax_target (logits weights : list (list R)) :
  map2 (fun p lt => kl_row (fst p) (snd p) lt)
       (combine (map (map exp) (map log_softmax logits))
                (map log_softmax logits))
       (map (map (clip (-50))) (map log_softmax weights)) =
  map2 kl_divergence logits (map softmax weights).
Proof.
  unfold map2.
  revert weights; induction logits as [|lg logits IH]; intros [|w weights];
    try reflexivity.
  simpl; rewrite IH; f_equal.
  apply kl_row_softmax_target.
Qed.

(** The policy loss of the code is the divergence of the specification for
    the target [softmax action_weights] in the place of
    [action_weights]. *)
Lemma policy_loss_softmax_target {Net Obs : Type}
    (batched_policy : Net -> list Obs -> list (list R) * list R) net data :
  policy_loss batched_policy net data =
  policy_loss_spec batched_policy net
    (TrainingExample.Build
       (TrainingExample.state data)
       (map softmax (TrainingExample.action_weights data))
       (TrainingExample.value data)).
Proof.
  unfold policy_loss, policy_loss_spec, loss_fn; simpl.
  destruct (batched_policy net _) as [action_logits value]; simpl.
  rewrite kl_rows_softmax_target; reflexivity.
Qed.

(** *** When the floor is not reached *)

Lemma clip_inactive (t : list R) :
  Forall (fun x => -50 <= x) t -> map (clip (-50)) t = t.
Proof.
  induction 1 as [|x t Hx _ IH]; [reflexivity|].
  simpl; rewrite IH; f_equal.
  unfold clip; apply Rmax_left, Hx.
Qed.

(** The divergence of a row is not negative, and zero for equal
    distributions only. *)
Lemma kl_row_nonneg (logits weights : list R) :
  logits <> [] -> length logits = length weights ->
  Forall (fun x => -50 <= x) (log_softmax weights) ->
  let l := log_softmax logits in
  let t := map (clip (-50)) (log_softmax weights) in
  0 <= kl_row (map exp l) l t /\
  (kl_row (map exp l) l t = 0 -> softmax logits = softmax weights).
Proof.
  intros Hne Hlen Hfloor l t; subst l t.
  rewrite (clip_inactive _ Hfloor).
  assert (Hne' : weights <> [])
    by (destruct weights, logits; simpl in *; congruence).
  pose proof (Rsum_softmax logits Hne) as H1.
  pose proof (Rsum_softmax weights Hne') as H2.
  unfold softmax in *.
  assert (Hlen' : length (log_softmax logits) = length (log_softmax weights))
    by (rewrite !length_log_softmax; assumption).
  pose proof (kl_row_lower _ _ Hlen') as Hlow.
  split; [lra|].
  intros Hzero; f_equal.
  apply kl_row_tight; [assumption | lra].
Qed.

(** The policy loss is not negative when no logarithm of a target is
    below the floor. *)
Lemma policy_loss_nonneg {Net Obs : Type}
    (batched_policy : Net -> list Obs -> list (list R) * list R) net data :
  Forall2 (fun logits weights =>
             logits <> [] /\ length logits = length weights /\
             Forall (fun x => -50 <= x) (log_softmax weights))
          (fst (batched_policy net (TrainingExample.state data)))
          (TrainingExample.action_weights data) ->
  0 <= policy_loss batched_policy net data.
Proof.
  unfold policy_loss, loss_fn.
  destruct (batched_policy net _) as [action_logits value]; simpl.
  intros Hrows; apply mean_nonneg.
  induction Hrows as [|lg w logits weights (Hne & Hlen & Hfloor) _ IH];
    [constructor|].
  unfold map2 in *; simpl; constructor; [|exact IH].
  apply (kl_row_nonneg lg w Hne Hlen Hfloor).
Qed.

(** *** The loss on concrete mini-batches *)

Lemma ln_le_pred x : 0 < x -> ln x <= x - 1.
Proof.
  intros Hx; pose proof (exp_ineq1_le (ln x)) as H.
  rewrite exp_ln in H by assumption; lra.
Qed.

Lemma exp_1_gt_2 : 2 < exp 1.
Proof.
  assert (H : (1 : R) <> 0) by lra.
  pose proof (exp_ineq1 1 H); lra.
Qed.

Lemma log_softmax_pair a b :
  log_softmax [a; b] = [a - ln (exp a + exp b); b - ln (exp a + exp b)].
Proof.
  unfold log_softmax; simpl.
  replace (exp a + (exp b + 0)) with (exp a + exp b) by ring; reflexivity.
Qed.

Lemma policy_loss_single logits weights value target :
  policy_loss (constant_policy [logits] value) tt
              (TrainingExample.Build [tt] [weights] target) =
  kl_row (map exp (log_softmax logits)) (log_softmax logits)
         (map (clip (-50)) (log_softmax weights)).
Proof.
  unfold policy_loss, loss_fn, constant_policy, map2.
  cbn [TrainingExample.state TrainingExample.action_weights
       TrainingExample.value map combine fst snd].
  apply mean_singleton.
Qed.

Lemma policy_loss_spec_single logits weights value target :
  policy_loss_spec (constant_policy [logits] value) tt
                   (TrainingExample.Build [tt] [weights] target) =
  kl_divergence logits weights.
Proof.
  unfold policy_loss_spec, constant_policy, map2.
  cbn [TrainingExample.state TrainingExample.action_weights
       TrainingExample.value map combine fst snd].
  apply mean_singleton.
Qed.

(** C3 (definition of the policy loss): the code departs from it.  For
    every mini-batch the policy loss of [loss_fn] is the divergence of the
    specification computed for the target [softmax action_weights], not
    for [action_weights].  On the mini-batch of one example with the target
    (1, 0) and the logits (1, 0), whose prediction is softmax (1, 0), the
    code returns the policy loss 0, while the divergence from the target
    to the prediction, with the floor of -50, is positive. *)
Theorem policy_loss_definition :
  (forall (Net Obs : Type)
          (batched_policy : Net -> list Obs -> list (list R) * list R)
          net data,
      policy_loss batched_policy net data =
      policy_loss_spec batched_policy net
        (TrainingExample.Build
           (TrainingExample.state data)
           (map softmax (TrainingExample.action_weights data))
           (TrainingExample.value data))) /\
  policy_loss (constant_policy [[1; 0]] [0]) tt certain_target = 0 /\
  0 < policy_loss_spec (constant_policy [[1; 0]] [0]) tt certain_target.
Proof.
  split; [intros; apply policy_loss_softmax_target|].
  pose proof exp_le_3 as He3.
  pose proof exp_1_gt_2 as He2.
  pose proof (exp_pos 1) as Hepos.
  assert (Hc1 : 1 < ln (exp 1 + exp 0)).
  { rewrite exp_0.
    rewrite <- (ln_exp 1) at 1; apply ln_increasing; lra. }
  assert (Hc3 : ln (exp 1 + exp 0) <= 3).
  { rewrite exp_0.
    assert (Hpos : 0 < exp 1 + 1) by lra.
    pose proof (ln_le_pred _ Hpos); lra. }
  split.
  - unfold certain_target; rewrite policy_loss_single.
    rewrite clip_inactive; [apply kl_row_refl|].
    rewrite log_softmax_pair; repeat constructor; lra.
  - unfold certain_target; rewrite policy_loss_spec_single.
    unfold kl_divergence; rewrite log_softmax_pair.
    unfold map2; cbn [map combine fst snd Rsum fold_right].
    set (c := ln (exp 1 + exp 0)) in *.
    assert (Hf1 : floored_log 1 = 0).
    { unfold floored_log.
      destruct (Rlt_dec 0 1) as [_|Hneg]; [|lra].
      rewrite ln_1; apply Rmax_left; lra. }
    assert (Hf0 : floored_log 0 = -50).
    { unfold floored_log.
      destruct (Rlt_dec 0 0) as [Hpos|_]; [lra | reflexivity]. }
    rewrite Hf1, Hf0.
    assert (Hp1 : 0 < exp (1 - c) <= 1).
    { split; [apply exp_pos|].
      apply Rle_trans with (exp 0); [|rewrite exp_0; lra].
      left; apply exp_increasing; lra. }
    assert (Hp2 : / 4 <= exp (0 - c)).
    { replace (0 - c) with (- c) by ring.
      rewrite exp_Ropp; unfold c; rewrite exp_ln by (rewrite exp_0; lra).
      rewrite exp_0.
      apply Rinv_le_contravar; lra. }
    nra.
Qed.

(** Read in the other direction, the divergence between the target (1, 0)
    and the prediction from the logits (1, 0) is positive as well. *)
Lemma other_direction_certain_target :
  0 < kl_divergence_weighted_by_target [1; 0] [1; 0].
Proof.
  unfold kl_divergence_weighted_by_target; rewrite log_softmax_pair.
  unfold map2; cbn [map combine fst snd Rsum fold_right].
  pose proof (exp_pos 1) as Hepos.
  assert (Hc1 : 1 < ln (exp 1 + exp 0)).
  { rewrite exp_0.
    rewrite <- (ln_exp 1) at 1; apply ln_increasing; lra. }
  assert (Hf1 : floored_log 1 = 0).
  { unfold floored_log.
    destruct (Rlt_dec 0 1) as [_|Hneg]; [|lra].
    rewrite ln_1; apply Rmax_left; lra. }
  rewrite Hf1; lra.
Qed.

(** C5 (non-negativity and identity of the losses): the code departs from
    the identity.  The value loss is not negative on any input.  On the
    mini-batch of one example with the target (3/4, 1/4) and the logits
    (ln 3, 0), the predicted distribution is the target and no logarithm
    reaches the floor, yet the policy loss of [loss_fn] is positive. *)
Theorem loss_nonnegativity_and_identity :
  (forall (Net Obs : Type)
          (batched_policy : Net -> list Obs -> list (list R) * list R)
          net data,
      0 <= value_loss batched_policy net data) /\
  softmax [ln 3; 0] = [3 / 4; 1 / 4] /\
  0 < policy_loss (constant_policy [[ln 3; 0]] [0]) tt matched_target.
Proof.
  split; [intros; apply value_loss_nonneg|].
  pose proof exp_le_3 as He3.
  assert (Hsoft : softmax [ln 3; 0] = [3 / 4; 1 / 4]).
  { unfold softmax; rewrite log_softmax_pair.
    rewrite exp_ln, exp_0 by lra.
    replace (3 + 1) with 4 by ring.
    simpl; unfold Rminus; rewrite !exp_plus, exp_Ropp, exp_0.
    rewrite !exp_ln by lra.
    reflexivity. }
  split; [exact Hsoft|].
  unfold matched_target; rewrite policy_loss_single.
  assert (Hhalf : exp (1 / 2) < 3).
  { apply Rlt_le_trans with (exp 1); [apply exp_increasing; lra | exact He3]. }
  assert (Hfloor : Forall (fun x => -50 <= x) (log_softmax [3 / 4; 1 / 4])).
  { rewrite log_softmax_pair.
    pose proof (exp_pos (3 / 4)); pose proof (exp_pos (1 / 4)).
    assert (H34 : exp (3 / 4) < exp 1) by (apply exp_increasing; lra).
    assert (H14 : exp (1 / 4) < exp 1) by (apply exp_increasing; lra).
    assert (Hpos : 0 < exp (3 / 4) + exp (1 / 4)) by lra.
    pose proof (ln_le_pred _ Hpos).
    repeat constructor; lra. }
  assert (Hne : [ln 3; 0] <> []) by discriminate.
  destruct (kl_row_nonneg [ln 3; 0] [3 / 4; 1 / 4] Hne eq_refl Hfloor)
    as [Hge Hzero].
  cbv zeta in Hge, Hzero.
  destruct Hge as [Hgt|Heq]; [exact Hgt|].
  exfalso.
  symmetry in Heq; specialize (Hzero Heq).
  rewrite Hsoft in Hzero.
  unfold softmax in Hzero; rewrite log_softmax_pair in Hzero.
  simpl in Hzero.
  injection Hzero as H1 H2.
  set (c := ln (exp (3 / 4) + exp (1 / 4))) in *.
  assert (H3 : exp (3 / 4 - c) = exp (1 / 2) * exp (1 / 4 - c))
    by (rewrite <- exp_plus; f_equal; field).
  rewrite <- H1, <- H2 in H3; lra.
Qed.

End LossFacts.

Section TrainingFacts.

Variables Net Optim Obs Grads : Type.
Variable batched_policy : Net -> list Obs -> list (list R) * list R.
Variable grad_loss_fn : Net -> Batch Obs -> Grads.
Variable apply_gradients : Net -> Optim -> Grads -> Net * Optim.

(** The number of indices of [range(0, N - M, M)]. *)
Lemma range_length (N M : nat) :
  0 < M ->
  Z.to_nat ((Z.of_nat N - Z.of_nat M - 0 + Z.of_nat M - 1) / Z.of_nat M) =
  (N - 1) / M.
Proof.
  intros HM.
  replace (Z.of_nat N - Z.of_nat M - 0 + Z.of_nat M - 1)%Z
    with (Z.of_nat N - 1)%Z by ring.
  destruct N as [|N].
  - simpl (0 - 1); rewrite Nat.Div0.div_0_l.
    assert (H : (Z.of_nat 0 - 1 = - (1))%Z) by reflexivity.
    rewrite H.
    assert (Hneg : ((- (1)) / Z.of_nat M < 0)%Z)
      by (apply Z.div_lt_upper_bound; lia).
    lia.
  - replace (Z.of_nat (S N) - 1)%Z with (Z.of_nat N) by lia.
    replace (S N - 1) with N by lia.
    rewrite <- Nat2Z.inj_div, Nat2Z.id; reflexivity.
Qed.

Lemma py_range_batches (N M : nat) :
  0 < M ->
  py_range 0 (Z.of_nat N - Z.of_nat M) (Z.of_nat M) =
  Ok (map (fun k => Z.of_nat (k * M)) (seq 0 ((N - 1) / M))).
Proof.
  intros HM; unfold py_range.
  assert (Hz : (Z.of_nat M =? 0)%Z = false) by (apply Z.eqb_neq; lia).
  assert (Hp : (0 <? Z.of_nat M)%Z = true) by (apply Z.ltb_lt; lia).
  rewrite Hz, Hp, range_length by assumption.
  f_equal; apply map_ext; intros k; lia.
Qed.

Lemma fold_left_pointwise {A B : Type} (f g : A -> B -> A) l a :
  (forall a x, f a x = g a x) -> fold_left f l a = fold_left g l a.
Proof.
  intros H; revert a; induction l as [|x l IH]; intros a; simpl; auto.
  rewrite H; apply IH.
Qed.

Lemma firstn_seq n start len :
  firstn n (seq start len) = seq start (Nat.min n len).
Proof.
  revert start len; induction n as [|n IH]; intros start [|len]; simpl; auto.
  rewrite IH; reflexivity.
Qed.

Lemma fold_left_map {A B C : Type} (f : A -> C -> A) (g : B -> C) l a :
  fold_left f (map g l) a = fold_left (fun a x => f a (g x)) l a.
Proof. revert a; induction l; simpl; auto. Qed.

(** The loop trains on the slices at [0], [M], ..., one after the other. *)
Lemma batch_loop_slices agent optim (buffer : Batch Obs) (M : nat) :
  0 < M ->
  batch_loop batched_policy grad_loss_fn apply_gradients agent optim buffer M =
  Ok (train_on batched_policy grad_loss_fn apply_gradients
        (map (fun k => tree_slice buffer (Z.of_nat (k * M))
                                  (Z.of_nat (k * M + M)))
             (seq 0 ((length (TrainingExample.state buffer) - 1) / M)))
        (agent, optim, [])).
Proof.
  intros HM; unfold batch_loop.
  rewrite py_range_batches by assumption; cbn [bind]; f_equal.
  unfold train_on; rewrite !fold_left_map.
  apply fold_left_pointwise; intros [[a o] losses] k.
  unfold batch_step; rewrite Nat2Z.inj_add; reflexivity.
Qed.

Lemma firstn_map_seq {A : Type} (f : nat -> A) n m :
  n <= m -> firstn n (map f (seq 0 m)) = map f (seq 0 n).
Proof.
  intros Hle; rewrite firstn_map, firstn_seq; do 2 f_equal; lia.
Qed.

Lemma length_full_batches (buffer : Batch Obs) (M : nat) :
  length (full_batches buffer M) =
  length (TrainingExample.state buffer) / M.
Proof. unfold full_batches; rewrite length_map, length_seq; reflexivity. Qed.

Lemma div_pred_not_multiple (N M : nat) :
  0 < M -> N mod M <> 0 -> (N - 1) / M = N / M.
Proof.
  intros HM Hmod.
  pose proof (Nat.div_mod_eq N M) as Hdiv.
  pose proof (Nat.mod_upper_bound N M ltac:(lia)) as Hlt.
  symmetry; apply (Nat.div_unique _ _ _ (N mod M - 1)); lia.
Qed.

Lemma div_pred_multiple (N M : nat) :
  0 < M -> 0 < N -> N mod M = 0 -> (N - 1) / M = N / M - 1.
Proof.
  intros HM HN Hmod.
  pose proof (Nat.div_mod_eq N M) as Hdiv.
  assert (Hq : 0 < N / M) by (destruct (N / M); [nia | lia]).
  symmetry; apply (Nat.div_unique _ _ _ (M - 1)); [lia|].
  rewrite Hmod in Hdiv; nia.
Qed.

(** C4 (partition into mini-batches): the code departs from it when the
    size of the mini-batches divides the number of examples.  With [N]
    examples and mini-batches of [M >= 1] examples, the loop trains on all
    the [N / M] contiguous full mini-batches when [M] does not divide [N],
    and on the first [N / M - 1] of them only when [M] divides [N] and
    [N >= 1]: the last full mini-batch is then not trained on. *)
Theorem mini_batch_partitioning agent optim (buffer : Batch Obs) (M : nat) :
  0 < M ->
  let N := length (TrainingExample.state buffer) in
  length (full_batches buffer M) = N / M /\
  (N mod M <> 0 ->
   batch_loop batched_policy grad_loss_fn apply_gradients
              agent optim buffer M =
   Ok (train_on batched_policy grad_loss_fn apply_gradients
                (full_batches buffer M) (agent, optim, []))) /\
  (0 < N -> N mod M = 0 ->
   batch_loop batched_policy grad_loss_fn apply_gradients
              agent optim buffer M =
   Ok (train_on batched_policy grad_loss_fn apply_gradients
                (firstn (N / M - 1) (full_batches buffer M))
                (agent, optim, []))).
Proof.
  intros HM N; split; [apply length_full_batches|].
  split.
  - intros Hmod.
    rewrite batch_loop_slices by assumption.
    fold N; rewrite (div_pred_not_multiple N M HM Hmod); reflexivity.
  - intros HN Hmod.
    rewrite batch_loop_slices by assumption.
    fold N; rewrite (div_pred_multiple N M HM HN Hmod).
    unfold full_batches; fold N.
    rewrite firstn_map_seq by lia; reflexivity.
Qed.

Lemma tree_stack_length (buffer : list (Sample Obs (list R) R)) stacked :
  tree_stack buffer = Ok stacked ->
  length (TrainingExample.state stacked) = length buffer.
Proof.
  destruct buffer as [|e buffer]; [discriminate|].
  intros [= <-]; simpl; rewrite length_map; reflexivity.
Qed.

(** The loop on a buffer below one mini-batch, which no iteration of [train]
    hands to it: no training step, and an exception. *)
Lemma train_epoch_small_buffer agent optim
    (buffer : list (Sample Obs (list R) R)) (M : nat) :
  length buffer < M ->
  (forall stacked,
      tree_stack buffer = Ok stacked ->
      batch_loop batched_policy grad_loss_fn apply_gradients
                 agent optim stacked M = Ok (agent, optim, [])) /\
  train_epoch batched_policy grad_loss_fn apply_gradients
              agent optim buffer M =
  Raise (match buffer with [] => TypeError | _ :: _ => ValueError end).
Proof.
  intros Hlt.
  assert (Hloop : forall stacked,
             tree_stack buffer = Ok stacked ->
             batch_loop batched_policy grad_loss_fn apply_gradients
                        agent optim stacked M = Ok (agent, optim, [])).
  { intros stacked Hstack.
    rewrite batch_loop_slices by lia.
    rewrite (tree_stack_length _ _ Hstack), Nat.div_small by lia.
    reflexivity. }
  split; [exact Hloop|].
  unfold train_epoch.
  destruct (tree_stack buffer) as [stacked|e] eqn:Hstack.
  - cbn [bind]; rewrite (Hloop stacked eq_refl); cbn [bind unzip_losses].
    destruct buffer; [discriminate | reflexivity].
  - destruct buffer; [injection Hstack as <-; reflexivity | discriminate].
Qed.

End TrainingFacts.

(** ** The theorems on concrete inputs *)

Lemma toy_split_length (key : list nat) (n : nat) :
  length (Toy.split key n) = n.
Proof. unfold Toy.split; rewrite length_map, length_seq; reflexivity. Qed.

(** The scenario of the specification: a game with the reward 1 at its
    last ply and three plies before it has the values -1, 1, -1, 1 from its
    earliest to its latest ply. *)
Lemma backward_value_propagation_witness :
  well_shaped one_game /\
  exists buffer,
    prepare_training_data Z.opp one_game = Ok buffer /\
    map (@TrainingExample.value _ _ _) (rev buffer) = [-1; 1; -1; 1]%Z.
Proof.
  assert (Hshape : well_shaped one_game) by (repeat split; reflexivity).
  split; [exact Hshape|].
  destruct (backward_value_propagation _ _ _ Z.opp one_game Hshape)
    as (segments & Hprep & Hall).
  cbn in Hall.
  inversion Hall as [|game seg games' segments' Hgame Hrest Hg Hs]; subst.
  inversion Hrest; subst.
  destruct Hgame as (_ & Hvalues).
  destruct (Hvalues 1%Z eq_refl) as (_ & _ & Hinv).
  destruct (Hinv Z.opp_involutive) as (_ & Hfour).
  exists seg; split.
  - rewrite Hprep; simpl; rewrite app_nil_r; reflexivity.
  - exact (Hfour eq_refl).
Defined.

Lemma padding_exclusion_witness :
  well_shaped two_games /\
  prepare_training_data Z.opp (drop_padding two_games) =
  prepare_training_data Z.opp two_games.
Proof.
  assert (Hshape : well_shaped two_games) by (repeat split; reflexivity).
  split; [exact Hshape|].
  exact (proj2 (padding_exclusion _ _ _ Z.opp two_games Hshape)).
Defined.

Lemma only_final_reward_matters_witness :
  well_shaped two_games /\ well_shaped two_games_other_rewards /\
  prepare_training_data Z.opp two_games_other_rewards =
  prepare_training_data Z.opp two_games.
Proof.
  assert (Hshape : well_shaped two_games) by (repeat split; reflexivity).
  assert (Hshape' : well_shaped two_games_other_rewards)
    by (repeat split; reflexivity).
  split; [exact Hshape|]; split; [exact Hshape'|].
  exact (proj1 (only_final_reward_matters _ _ _ Z.opp two_games
                  two_games_other_rewards Hshape Hshape'
                  eq_refl eq_refl eq_refl eq_refl)).
Defined.

(** Four examples in mini-batches of two: the optimizer makes one step, not
    two. *)
Lemma mini_batch_partitioning_witness :
  0 < 2 /\
  exists losses,
    Toy.loop tt 0 (Toy.stacked 4) 2 = Ok (tt, 1, losses) /\
    length losses = 1.
Proof.
  split; [lia|].
  destruct (mini_batch_partitioning _ _ _ _ Toy.constant_outputs
              Toy.grad_loss_fn Toy.apply_gradients tt 0 (Toy.stacked 4) 2
              ltac:(lia)) as (_ & _ & Hloop).
  specialize (Hloop ltac:(simpl; lia) eq_refl).
  unfold Toy.loop; rewrite Hloop.
  unfold train_on, full_batches, train_step, Toy.apply_gradients.
  cbn [Toy.stacked TrainingExample.state length seq Nat.div Nat.divmod fst
       Nat.sub map firstn fold_left].
  destruct (loss_fn Toy.constant_outputs tt _) as [total losses].
  exists [losses]; split; reflexivity.
Defined.

Lemma corpus_collection_witness :
  (0 < 2 /\ 2 <= 5) /\
  corpus_collected Toy.split Toy.reset_env Toy.canonical_observation
    Toy.is_terminated Toy.invalid_actions Toy.batched_policy
    Toy.gumbel_muzero_policy Toy.env_step tt 7 [] 2 5.
Proof.
  split; [lia|].
  apply corpus_collection; [apply toy_split_length | lia | lia].
Defined.

(** A corpus of 16 games in batches of 32: there is no result. *)
Lemma corpus_not_collected :
  ~ corpus_collected Toy.split Toy.reset_env Toy.canonical_observation
      Toy.is_terminated Toy.invalid_actions Toy.batched_policy
      Toy.gumbel_muzero_policy Toy.env_step tt 7 [] 32 16.
Proof.
  intros (batches & _ & _ & Hresult).
  rewrite (proj2 (collect_selfplay_data_small _ _ _ _ _ _ _ _ _ _
                    Toy.split Toy.reset_env Toy.canonical_observation
                    Toy.is_terminated Toy.invalid_actions Toy.batched_policy
                    Toy.gumbel_muzero_policy Toy.env_step toy_split_length
                    tt 7 [] 32 16 ltac:(lia))) in Hresult.
  discriminate.
Qed.

Lemma floor_division_truncation_witness :
  corpus_truncated Toy.split Toy.reset_env Toy.canonical_observation
    Toy.is_terminated Toy.invalid_actions Toy.batched_policy
    Toy.gumbel_muzero_policy Toy.env_step tt 7 [] 2 5 /\
  Toy.collect tt 7 [] 2 1 = Raise TypeError.
Proof.
  split.
  - apply floor_division_truncation;
      [apply toy_split_length | lia | lia | discriminate].
  - apply (floor_division_truncation _ _ _ _ _ _ _ _ _ _
             Toy.split Toy.reset_env Toy.canonical_observation
             Toy.is_terminated Toy.invalid_actions Toy.batched_policy
             Toy.gumbel_muzero_policy Toy.env_step toy_split_length
             tt 7 [] 2 1); lia.
Defined.

(** A corpus of 16 games in batches of 32, which do not divide it: no data
    of zero games is returned. *)
Lemma corpus_not_truncated :
  16 mod 32 <> 0 /\
  ~ corpus_truncated Toy.split Toy.reset_env Toy.canonical_observation
      Toy.is_terminated Toy.invalid_actions Toy.batched_policy
      Toy.gumbel_muzero_policy Toy.env_step tt 7 [] 32 16.
Proof.
  split; [discriminate|].
  intros (batches & data & _ & _ & Hresult & _).
  rewrite (proj2 (collect_selfplay_data_small _ _ _ _ _ _ _ _ _ _
                    Toy.split Toy.reset_env Toy.canonical_observation
                    Toy.is_terminated Toy.invalid_actions Toy.batched_policy
                    Toy.gumbel_muzero_policy Toy.env_step toy_split_length
                    tt 7 [] 32 16 ltac:(lia))) in Hresult.
  discriminate.
Qed.

(** * Further properties *)

(** ** The trajectory compiler *)

Section CompilerMore.

Variables Obs AW V : Type.
Variable neg : V -> V.

Lemma filter_live_zip_plies (s : list Obs) t (a : list AW) (r : list V) :
  length s = length t -> length a = length t -> length r = length t ->
  length (filter (@live Obs AW V) (zip_plies s t a r)) =
  length (filter negb t).
Proof.
  intros Hs Ha Hr.
  rewrite <- (zip_keep_live Obs AW V s t a r Hs Ha Hr).
  rewrite length_zip_plies; rewrite !length_keep_live; auto.
Qed.

Lemma length_compiled_games (data : Trajectories Obs AW V) :
  well_shaped data ->
  length (flat_map (compiled_game neg) (games data)) =
  length (filter negb (concat (MoveOutput.terminated data))).
Proof.
  destruct data as [ss rs ts ws].
  unfold well_shaped, games, shape; simpl.
  intros (Hs & Ha & Hr).
  revert ss ws rs Hs Ha Hr; induction ts as [|t ts IH];
    intros [|s ss] [|a ws] [|r rs]; simpl; try discriminate; auto.
  intros [= Hs Hss] [= Ha Has] [= Hr Hrs].
  rewrite length_app, filter_app, length_app, (IH ss ws rs) by assumption.
  rewrite length_compiled_game, filter_live_zip_plies by assumption.
  reflexivity.
Qed.

(** X1.  On trajectories of one shape the buffer holds as many examples as
    there are plies, in the whole batch, whose flag [terminated] is false. *)
Theorem buffer_length (data : Trajectories Obs AW V) :
  well_shaped data ->
  exists buffer,
    prepare_training_data neg data = Ok buffer /\
    length buffer =
    length (filter negb (concat (MoveOutput.terminated data))).
Proof.
  intros Hshape; eexists; split.
  - apply prepare_training_data_games, Hshape.
  - apply length_compiled_games, Hshape.
Qed.

Lemma combine_append {A B : Type} (xs xs' : list A) (ys ys' : list B) :
  length xs = length ys ->
  combine (xs ++ xs') (ys ++ ys') = combine xs ys ++ combine xs' ys'.
Proof.
  revert ys; induction xs as [|x xs IH]; intros [|y ys]; simpl;
    try discriminate; auto.
  intros [= H]; rewrite IH by assumption; reflexivity.
Qed.

Lemma shape_length {A B : Type} (xss : list (list A)) (yss : list (list B)) :
  shape xss = shape yss -> length xss = length yss.
Proof.
  intros H; apply (f_equal (@length nat)) in H.
  unfold shape in H; rewrite !length_map in H; exact H.
Qed.

(** The games of two batches put one after the other. *)
Lemma games_append (d1 d2 : Trajectories Obs AW V) :
  well_shaped d1 ->
  games (MoveOutput.Build
           (MoveOutput.state d1 ++ MoveOutput.state d2)
           (MoveOutput.reward d1 ++ MoveOutput.reward d2)
           (MoveOutput.terminated d1 ++ MoveOutput.terminated d2)
           (MoveOutput.action_weights d1 ++ MoveOutput.action_weights d2)) =
  games d1 ++ games d2.
Proof.
  intros (Hs & Ha & Hr).
  apply shape_length in Hs, Ha, Hr.
  unfold games; simpl.
  rewrite !combine_append, map_app; try reflexivity.
  all: rewrite ?length_combine; lia.
Qed.

Lemma games_concatenated (batches : list (Trajectories Obs AW V)) :
  Forall (@well_shaped Obs AW V) batches ->
  games (concatenated batches) = concat (map (@games Obs AW V) batches).
Proof.
  induction 1 as [|d batches Hd _ IH]; [reflexivity|].
  simpl; rewrite <- IH.
  apply (games_append d (concatenated batches) Hd).
Qed.

Lemma well_shaped_concatenated (batches : list (Trajectories Obs AW V)) :
  Forall (@well_shaped Obs AW V) batches -> well_shaped (concatenated batches).
Proof.
  induction 1 as [|d batches (Hs & Ha & Hr) _ (IHs & IHa & IHr)];
    [repeat split|].
  unfold well_shaped, concatenated, shape in *; simpl in *.
  rewrite !map_app; repeat split; congruence.
Qed.

Lemma tree_concatenate_concatenated (batches : list (Trajectories Obs AW V))
    data :
  tree_concatenate batches = Ok data -> data = concatenated batches.
Proof.
  destruct batches; [discriminate|].
  intros [= <-]; reflexivity.
Qed.

(** X2.  The compiler commutes with the concatenation of batches along the
    axis of the games: on the concatenation of batches of one shape each, the
    buffer is the buffers of the batches one after the other. *)
Theorem prepare_training_data_concatenate
    (batches : list (Trajectories Obs AW V)) data :
  Forall (@well_shaped Obs AW V) batches ->
  tree_concatenate batches = Ok data ->
  exists buffers,
    Forall2 (fun batch buffer => prepare_training_data neg batch = Ok buffer)
            batches buffers /\
    prepare_training_data neg data = Ok (concat buffers).
Proof.
  intros Hshape Hdata.
  apply tree_concatenate_concatenated in Hdata; subst data.
  exists (map (fun d => flat_map (compiled_game neg) (games d)) batches).
  split.
  - clear - Hshape.
    induction Hshape as [|d batches Hd _ IH]; simpl; constructor; auto.
    apply prepare_training_data_games, Hd.
  - rewrite prepare_training_data_games
      by (apply well_shaped_concatenated, Hshape).
    rewrite games_concatenated by assumption.
    f_equal.
    clear; induction batches as [|d batches IH]; [reflexivity|].
    simpl; rewrite flat_map_app, IH; reflexivity.
Qed.

(** *** Arrays with missing rows *)

Lemma getitem_ok_or_index_error {A : Type} (xs : list A) i :
  ok_or_index_error (getitem xs i).
Proof.
  unfold getitem; destruct (nth_error xs i); [left; eauto | right; reflexivity].
Qed.

Lemma for_each_ok_or_index_error {A S : Type} (body : S -> A -> result S) xs :
  (forall s x, ok_or_index_error (body s x)) ->
  forall s, ok_or_index_error (for_each body xs s).
Proof.
  intros Hbody; induction xs as [|x xs IH]; intros s; simpl.
  - left; eauto.
  - destruct (Hbody s x) as [(s' & ->)| ->]; simpl; [apply IH | right; reflexivity].
Qed.

Lemma ply_step_ok_or_index_error s t a (r : list V) L acc j :
  ok_or_index_error (ply_step neg (Obs:=Obs) (AW:=AW) s t a r L acc j).
Proof.
  unfold ply_step.
  destruct (getitem_ok_or_index_error t (L - 1 - j)) as [(b & ->)| ->];
    [|right; reflexivity].
  cbn [bind]; destruct b; [left; eauto|].
  destruct acc as [value buffer].
  assert (Hv : ok_or_index_error
                 match value with
                 | Some v => Ok (neg v)
                 | None => getitem r (L - 1 - j)
                 end)
    by (destruct value; [left; eauto | apply getitem_ok_or_index_error]).
  destruct Hv as [(v & ->)| ->]; [|right; reflexivity].
  cbn [bind].
  destruct (getitem_ok_or_index_error s (L - 1 - j)) as [(x & ->)| ->];
    [|right; reflexivity].
  cbn [bind].
  destruct (getitem_ok_or_index_error a (L - 1 - j)) as [(y & ->)| ->];
    [left; cbn [bind]; eauto | right; reflexivity].
Qed.

Lemma game_step_ok_or_index_error (data : Trajectories Obs AW V) buffer i :
  ok_or_index_error (game_step neg data buffer i).
Proof.
  unfold game_step.
  destruct (getitem_ok_or_index_error (MoveOutput.state data) i)
    as [(s & ->)| ->]; [|right; reflexivity].
  destruct (getitem_ok_or_index_error (MoveOutput.terminated data) i)
    as [(t & ->)| ->]; [|right; reflexivity].
  destruct (getitem_ok_or_index_error (MoveOutput.action_weights data) i)
    as [(a & ->)| ->]; [|right; reflexivity].
  destruct (getitem_ok_or_index_error (MoveOutput.reward data) i)
    as [(r & ->)| ->]; [|right; reflexivity].
  cbn [bind].
  destruct (for_each_ok_or_index_error
              (ply_step neg s t a r (length t)) (seq 0 (length t))
              (ply_step_ok_or_index_error s t a r (length t)) (None, buffer))
    as [([v b] & ->)| ->]; [left; cbn [bind]; eauto | right; reflexivity].
Qed.

Lemma getitem_short {A : Type} (xs : list A) i :
  length xs <= i -> getitem xs i = Raise IndexError.
Proof.
  intros H; apply nth_error_None in H; unfold getitem; rewrite H; reflexivity.
Qed.

Lemma game_step_short (data : Trajectories Obs AW V) buffer i :
  length (MoveOutput.state data) <= i \/
  length (MoveOutput.action_weights data) <= i \/
  length (MoveOutput.reward data) <= i ->
  game_step neg data buffer i = Raise IndexError.
Proof.
  intros H; unfold game_step.
  destruct (getitem_ok_or_index_error (MoveOutput.state data) i)
    as [(s & Hs)| ->]; [|reflexivity].
  rewrite Hs.
  destruct (getitem_ok_or_index_error (MoveOutput.terminated data) i)
    as [(t & ->)| ->]; [|reflexivity].
  destruct (getitem_ok_or_index_error (MoveOutput.action_weights data) i)
    as [(a & Ha)| ->]; [|reflexivity].
  rewrite Ha.
  destruct (getitem_ok_or_index_error (MoveOutput.reward data) i)
    as [(r & Hr)| ->]; [|reflexivity].
  exfalso.
  destruct H as [H|[H|H]]; apply getitem_short in H; congruence.
Qed.

Lemma for_each_raises_at {A S : Type} (body : S -> A -> result S)
    xs x ys :
  (forall s y, ok_or_index_error (body s y)) ->
  (forall s, body s x = Raise IndexError) ->
  forall s, for_each body (xs ++ x :: ys) s = Raise IndexError.
Proof.
  intros Hbody Hx s.
  rewrite for_each_app.
  destruct (for_each_ok_or_index_error body xs Hbody s) as [(s' & ->)| ->];
    [|reflexivity].
  simpl; rewrite Hx; reflexivity.
Qed.

(** X3.  When the array of the states, of the action weights or of the
    rewards has fewer games than the array [terminated], the compiler raises
    [IndexError]: it returns no buffer of the games that are complete. *)
Theorem prepare_training_data_missing_game (data : Trajectories Obs AW V) :
  length (MoveOutput.state data) < length (MoveOutput.terminated data) \/
  length (MoveOutput.action_weights data) < length (MoveOutput.terminated data) \/
  length (MoveOutput.reward data) < length (MoveOutput.terminated data) ->
  prepare_training_data neg data = Raise IndexError.
Proof.
  intros H; unfold prepare_training_data.
  set (N := length (MoveOutput.terminated data)) in *.
  assert (Hsplit : seq 0 N = seq 0 (N - 1) ++ (N - 1) :: [])
    by (replace N with (S (N - 1)) at 1 by lia; rewrite seq_S; reflexivity).
  rewrite Hsplit.
  apply for_each_raises_at.
  - intros s y; apply game_step_ok_or_index_error.
  - intros s; apply game_step_short; lia.
Qed.

End CompilerMore.

(** ** The loss *)

Section LossMore.

Local Open Scope R_scope.

Variables Net Obs : Type.
Variable batched_policy : Net -> list Obs -> list (list R) * list R.

Lemma Rsum_zero (xs : list R) :
  Forall (fun x => 0 <= x) xs -> Rsum xs = 0 -> Forall (fun x => x = 0) xs.
Proof.
  induction 1 as [|x xs Hx Hxs IH]; simpl; intros Hsum; constructor.
  - pose proof (Rsum_nonneg xs Hxs); lra.
  - apply IH; pose proof (Rsum_nonneg xs Hxs); lra.
Qed.

Lemma Rsum_zeros (xs : list R) : Forall (fun x => x = 0) xs -> Rsum xs = 0.
Proof. induction 1 as [|x xs Hx _ IH]; simpl; [reflexivity | lra]. Qed.

Lemma mean_zero_iff (xs : list R) :
  xs <> [] -> Forall (fun x => 0 <= x) xs ->
  mean xs = 0 <-> Forall (fun x => x = 0) xs.
Proof.
  intros Hne Hpos.
  assert (Hn : 0 < INR (length xs))
    by (apply lt_0_INR; destruct xs; [congruence | simpl; lia]).
  unfold mean; split.
  - intros H; apply Rsum_zero; [assumption|].
    replace (Rsum xs) with (Rsum xs / INR (length xs) * INR (length xs))
      by (field; lra).
    rewrite H; ring.
  - intros H; rewrite (Rsum_zeros xs H); field; lra.
Qed.

Lemma l2_loss_zero_iff p t : l2_loss p t = 0 <-> p = t.
Proof.
  unfold l2_loss; split.
  - intros H.
    assert (Hsq : (p - t)² = 0) by lra.
    apply Rsqr_eq_0 in Hsq; lra.
  - intros ->; unfold Rsqr; ring.
Qed.

Lemma l2_losses_zero_iff (v t : list R) :
  length v = length t ->
  Forall (fun x => x = 0) (map2 l2_loss v t) <-> v = t.
Proof.
  unfold map2.
  revert t; induction v as [|p v IH]; intros [|q t]; simpl; try discriminate.
  - intros _; split; [reflexivity | constructor].
  - intros [= Hlen]; split.
    + intros H; inversion H as [|x xs Hx Hxs]; subst.
      apply (proj1 (l2_loss_zero_iff p q)) in Hx.
      apply (proj1 (IH t Hlen)) in Hxs; congruence.
    + intros [= -> ->]; constructor;
        [apply l2_loss_zero_iff; reflexivity | apply (IH t Hlen); reflexivity].
Qed.

(** X4.  When the network returns as many values as the mini-batch has
    targets, and at least one, the value loss is zero exactly when every
    predicted value is its target. *)
Theorem value_loss_zero_iff net (data : Batch Obs) :
  let value := snd (batched_policy net (TrainingExample.state data)) in
  value <> [] -> length value = length (TrainingExample.value data) ->
  value_loss batched_policy net data = 0 <->
  value = TrainingExample.value data.
Proof.
  unfold value_loss, loss_fn.
  destruct (batched_policy net _) as [action_logits value]; simpl.
  intros Hne Hlen.
  rewrite mean_zero_iff.
  - apply l2_losses_zero_iff, Hlen.
  - destruct value as [|p v]; [congruence|].
    destruct (TrainingExample.value data); [discriminate|].
    unfold map2; simpl; discriminate.
  - apply Forall_map2; intros; apply l2_loss_nonneg.
Qed.

Lemma map_exp_injective (l t : list R) : map exp l = map exp t -> l = t.
Proof.
  revert t; induction l as [|a l IH]; intros [|b t]; simpl; try discriminate;
    auto.
  intros [= Hab Hrest]; f_equal; [apply exp_inv, Hab | apply IH, Hrest].
Qed.

Lemma kl_row_zero_iff (logits weights : list R) :
  logits <> [] -> length logits = length weights ->
  Forall (fun x => -50 <= x) (log_softmax weights) ->
  kl_row (map exp (log_softmax logits)) (log_softmax logits)
         (map (clip (-50)) (log_softmax weights)) = 0 <->
  softmax logits = softmax weights.
Proof.
  intros Hne Hlen Hfloor; split.
  - apply (kl_row_nonneg logits weights Hne Hlen Hfloor).
  - intros Heq; unfold softmax in Heq; apply map_exp_injective in Heq.
    rewrite (clip_inactive _ Hfloor), <- Heq; apply kl_row_refl.
Qed.

Lemma kl_rows_zero_iff (logits weights : list (list R)) :
  rows_in_range logits weights ->
  Forall (fun x => 0 <= x)
    (map2 (fun p lt => kl_row (fst p) (snd p) lt)
          (combine (map (map exp) (map log_softmax logits))
                   (map log_softmax logits))
          (map (map (clip (-50))) (map log_softmax weights))) /\
  (Forall (fun x => x = 0)
     (map2 (fun p lt => kl_row (fst p) (snd p) lt)
           (combine (map (map exp) (map log_softmax logits))
                    (map log_softmax logits))
           (map (map (clip (-50))) (map log_softmax weights))) <->
   Forall2 (fun lg w => softmax lg = softmax w) logits weights).
Proof.
  unfold map2.
  induction 1 as [|lg w logits weights (Hne & Hlen & Hfloor) _ [IHpos IH]];
    simpl.
  - split; [constructor|]; split; constructor.
  - split.
    + constructor; [apply (kl_row_nonneg lg w Hne Hlen Hfloor) | exact IHpos].
    + split.
      * intros H; inversion H as [|x xs Hx Hxs]; subst.
        constructor; [apply (kl_row_zero_iff lg w Hne Hlen Hfloor), Hx|].
        apply IH, Hxs.
      * intros H; inversion H as [|? ? ? ? Hx Hxs]; subst.
        constructor; [apply (kl_row_zero_iff lg w Hne Hlen Hfloor), Hx|].
        apply IH, Hxs.
Qed.

(** X5.  On a mini-batch that is not empty, with as many logits as action
    weights in every row and no logarithm of a target below the floor, the
    policy loss is zero exactly when, in every row, the predicted
    distribution is the softmax of the action weights. *)
Theorem policy_loss_zero_iff net (data : Batch Obs) :
  let logits := fst (batched_policy net (TrainingExample.state data)) in
  logits <> [] ->
  rows_in_range logits (TrainingExample.action_weights data) ->
  policy_loss batched_policy net data = 0 <->
  Forall2 (fun lg w => softmax lg = softmax w)
          logits (TrainingExample.action_weights data).
Proof.
  unfold policy_loss, loss_fn.
  destruct (batched_policy net _) as [action_logits value]; simpl.
  intros Hne Hrows.
  destruct (kl_rows_zero_iff _ _ Hrows) as [Hpos Hiff].
  rewrite mean_zero_iff; [exact Hiff | | exact Hpos].
  destruct Hrows; [congruence|].
  unfold map2; simpl; discriminate.
Qed.

Lemma Rsum_exp_add c (xs : list R) :
  Rsum (map exp (map (fun x => x + c) xs)) = Rsum (map exp xs) * exp c.
Proof.
  induction xs as [|x xs IH]; simpl; [ring|].
  rewrite IH, exp_plus; ring.
Qed.

(** [log_softmax] does not see a constant added to its arguments. *)
Lemma log_softmax_shift c (xs : list R) :
  log_softmax (map (fun x => x + c) xs) = log_softmax xs.
Proof.
  destruct xs as [|x0 xs]; [reflexivity|].
  unfold log_softmax; rewrite map_map, Rsum_exp_add.
  assert (Hpos : 0 < Rsum (map exp (x0 :: xs)))
    by (apply Rsum_exp_pos; discriminate).
  rewrite ln_mult, ln_exp by (assumption || apply exp_pos).
  apply map_ext; intros x; ring.
Qed.

(** X6.  On real numbers, that is without the rounding of the additions,
    the losses do not see a constant added to all the logits of the
    network, nor one added to all the action weights of the targets. *)
Theorem loss_fn_shift_invariant
    (shifted_policy : Net -> list Obs -> list (list R) * list R)
    net (data : Batch Obs) (c d : R) :
  shifted_policy net (TrainingExample.state data) =
  (map (map (fun x => x + c))
       (fst (batched_policy net (TrainingExample.state data))),
   snd (batched_policy net (TrainingExample.state data))) ->
  loss_fn shifted_policy net
    (TrainingExample.Build
       (TrainingExample.state data)
       (map (map (fun x => x + d)) (TrainingExample.action_weights data))
       (TrainingExample.value data)) =
  loss_fn batched_policy net data.
Proof.
  intros Hshift; unfold loss_fn; simpl.
  rewrite Hshift.
  destruct (batched_policy net _) as [action_logits value]; simpl.
  rewrite !map_map.
  rewrite (map_ext _ _ (log_softmax_shift c)).
  rewrite (map_ext (fun x => map (clip (-50)) (log_softmax (map (fun x0 => x0 + d) x)))
                   (fun x => map (clip (-50)) (log_softmax x)))
    by (intros w; rewrite log_softmax_shift; reflexivity).
  rewrite (map_ext (fun x => map exp (log_softmax (map (fun x0 => x0 + c) x)))
                   (fun x => map exp (log_softmax x)))
    by (intros w; rewrite log_softmax_shift; reflexivity).
  reflexivity.
Qed.

Lemma Rsum_exp_upper (w : list R) :
  Forall (fun x => 0 <= x <= 1) w ->
  Rsum (map exp w) <= INR (length w) * exp 1.
Proof.
  induction 1 as [|x w [Hx0 Hx1] _ IH].
  - simpl; lra.
  - change (length (x :: w)) with (S (length w)); rewrite S_INR; simpl.
    assert (Hx : exp x <= exp 1).
    { destruct Hx1 as [Hlt| ->]; [left; apply exp_increasing, Hlt | lra]. }
    lra.
Qed.

(** X7.  On action weights between 0 and 1, for at most [exp 49] actions,
    the floor of [-50] is never reached: the clipping of the logarithms of
    the target leaves every one of them as it is. *)
Theorem clip_leaves_probabilities (w : list R) :
  w <> [] ->
  Forall (fun x => 0 <= x <= 1) w ->
  INR (length w) <= exp 49 ->
  map (clip (-50)) (log_softmax w) = log_softmax w.
Proof.
  intros Hne Hw Hn.
  apply clip_inactive.
  pose proof (Rsum_exp_pos w Hne) as Hpos.
  pose proof (Rsum_exp_upper w Hw) as Hup.
  assert (Hln : ln (Rsum (map exp w)) <= 50).
  { assert (Hbound : Rsum (map exp w) <= exp 50).
    { replace 50 with (49 + 1) by ring; rewrite exp_plus.
      pose proof (exp_pos 1).
      apply Rle_trans with (INR (length w) * exp 1); [assumption|].
      apply Rmult_le_compat_r; lra. }
    destruct Hbound as [Hlt|Heq].
    - left; rewrite <- (ln_exp 50); apply ln_increasing; assumption.
    - rewrite Heq, ln_exp; lra. }
  unfold log_softmax; apply Forall_map.
  revert Hw; apply Forall_impl; intros x [Hx0 Hx1]; lra.
Qed.

(** X20.  On rows of logits and action weights of one length on which no
    logarithm of a target is below the floor, the policy loss is not
    negative. *)
Theorem policy_loss_not_negative net (data : Batch Obs) :
  rows_in_range (fst (batched_policy net (TrainingExample.state data)))
                (TrainingExample.action_weights data) ->
  0 <= policy_loss batched_policy net data.
Proof.
  unfold policy_loss, loss_fn.
  destruct (batched_policy net _) as [action_logits value]; simpl.
  intros Hrows; apply mean_nonneg.
  apply (kl_rows_zero_iff _ _ Hrows).
Qed.

End LossMore.

(** ** The loop over the mini-batches *)

Section TrainingMore.

Variables Net Optim Obs Grads : Type.
Variable batched_policy : Net -> list Obs -> list (list R) * list R.
Variable grad_loss_fn : Net -> Batch Obs -> Grads.
Variable apply_gradients : Net -> Optim -> Grads -> Net * Optim.

Local Notation "'train_on_batches'" :=
  (train_on batched_policy grad_loss_fn apply_gradients) (only parsing).

(** Every training step adds one pair of losses. *)
Lemma train_on_losses (batches : list (Batch Obs)) agent optim losses :
  length (snd (train_on_batches batches (agent, optim, losses))) =
  length losses + length batches.
Proof.
  unfold train_on.
  revert agent optim losses; induction batches as [|b batches IH];
    intros agent optim losses; simpl; [lia|].
  unfold train_step at 2.
  destruct (loss_fn batched_policy agent b) as [total loss].
  destruct (apply_gradients agent optim _) as [agent' optim'].
  rewrite IH, length_app; simpl; lia.
Qed.

Lemma tree_stack_ok (buffer : list (Sample Obs (list R) R)) :
  buffer <> [] -> exists stacked, tree_stack buffer = Ok stacked.
Proof. destruct buffer; [congruence | eexists; reflexivity]. Qed.

Lemma unzip_losses_ok (losses : list (R * R)) :
  losses <> [] ->
  unzip_losses losses = Ok (map fst losses, map snd losses).
Proof. destruct losses; [congruence | reflexivity]. Qed.

Lemma train_epoch_ok agent optim
    (buffer : list (Sample Obs (list R) R)) (M : nat) :
  0 < M < length buffer ->
  exists r,
    train_epoch batched_policy grad_loss_fn apply_gradients
                agent optim buffer M = Ok r.
Proof.
  intros [HM HN]; unfold train_epoch.
  destruct (tree_stack_ok buffer
              ltac:(destruct buffer; simpl in *; [lia|discriminate]))
    as (stacked & Hstack).
  rewrite Hstack; cbn [bind].
  rewrite batch_loop_slices by assumption; cbn [bind].
  rewrite (tree_stack_length _ _ _ Hstack).
  set (batches := map _ (seq 0 ((length buffer - 1) / M))).
  pose proof (train_on_losses batches agent optim []) as Hlen.
  destruct (train_on_batches batches (agent, optim, []))
    as [[agent' optim'] losses].
  simpl in Hlen.
  assert (Hpos : 0 < (length buffer - 1) / M)
    by (apply Nat.div_str_pos; lia).
  assert (Hne : losses <> []).
  { intros ->; subst batches.
    rewrite length_map, length_seq in Hlen; simpl in Hlen; lia. }
  rewrite (unzip_losses_ok losses Hne); cbn [bind].
  eexists; reflexivity.
Qed.

(** X8.  An iteration of [train] gets through its training epoch exactly
    when the size of the mini-batches is at least one and the buffer holds
    more examples than one mini-batch: a buffer of exactly one mini-batch
    raises as a smaller one does. *)
Theorem train_epoch_returns_iff agent optim
    (buffer : list (Sample Obs (list R) R)) (M : nat) :
  (exists r,
      train_epoch batched_policy grad_loss_fn apply_gradients
                  agent optim buffer M = Ok r) <->
  0 < M < length buffer.
Proof.
  unfold train_epoch; split.
  - intros (r & Hr).
    destruct buffer as [|e buffer]; [discriminate|].
    destruct (tree_stack_ok (e :: buffer) ltac:(discriminate))
      as (stacked & Hstack).
    rewrite Hstack in Hr; cbn [bind] in Hr.
    destruct M as [|M]; [discriminate|].
    split; [lia|].
    rewrite batch_loop_slices in Hr by lia; cbn [bind] in Hr.
    rewrite (tree_stack_length _ _ _ Hstack) in Hr.
    destruct (Nat.le_gt_cases (length (e :: buffer)) (S M)) as [Hle|Hgt];
      [|exact Hgt].
    rewrite Nat.div_small in Hr by lia.
    discriminate.
  - fold (train_epoch batched_policy grad_loss_fn apply_gradients
                      agent optim buffer M).
    apply train_epoch_ok.
Qed.

(** *** The mini-batches that are trained on *)

Lemma slice_bound_inside (len i : Z) :
  (0 <= i <= len)%Z -> slice_bound len i = i.
Proof.
  intros H; unfold slice_bound.
  destruct (i <? 0)%Z eqn:Hneg; [apply Z.ltb_lt in Hneg; lia | lia].
Qed.

Lemma py_slice_inside {A : Type} (xs : list A) (a b : nat) :
  a <= b <= length xs ->
  py_slice xs (Z.of_nat a) (Z.of_nat b) = firstn (b - a) (skipn a xs).
Proof.
  intros H; unfold py_slice.
  rewrite !slice_bound_inside by lia.
  rewrite <- Nat2Z.inj_sub, !Nat2Z.id by lia; reflexivity.
Qed.

Lemma firstn_plus {A : Type} (xs : list A) a b :
  firstn (a + b) xs = firstn a xs ++ firstn b (skipn a xs).
Proof.
  revert xs; induction a as [|a IH]; intros [|x xs]; simpl;
    rewrite ?firstn_nil; auto.
  rewrite IH; reflexivity.
Qed.

Lemma concat_chunks {A : Type} (xs : list A) (M n : nat) :
  concat (map (fun k => firstn M (skipn (k * M) xs)) (seq 0 n)) =
  firstn (n * M) xs.
Proof.
  induction n as [|n IH]; [reflexivity|].
  rewrite seq_S, map_app, concat_app, IH; simpl.
  rewrite app_nil_r, (Nat.add_comm M), firstn_plus; reflexivity.
Qed.

Lemma tree_stack_stacked (buffer : list (Sample Obs (list R) R)) stacked :
  tree_stack buffer = Ok stacked -> stacked_buffer stacked.
Proof.
  destruct buffer as [|e buffer]; [discriminate|].
  intros [= <-]; unfold stacked_buffer; simpl; rewrite !length_map; auto.
Qed.

Lemma tree_slice_inside (buffer : Batch Obs) (k M : nat) :
  stacked_buffer buffer ->
  k * M + M <= length (TrainingExample.state buffer) ->
  tree_slice buffer (Z.of_nat (k * M)) (Z.of_nat (k * M + M)) =
  TrainingExample.Build
    (firstn M (skipn (k * M) (TrainingExample.state buffer)))
    (firstn M (skipn (k * M) (TrainingExample.action_weights buffer)))
    (firstn M (skipn (k * M) (TrainingExample.value buffer))).
Proof.
  intros [Ha Hv] Hle; unfold tree_slice.
  rewrite !py_slice_inside by lia.
  replace (k * M + M - k * M) with M by lia; reflexivity.
Qed.

Lemma steps_inside (N M k : nat) :
  0 < M -> k < (N - 1) / M -> k * M + M <= N.
Proof.
  intros HM Hk.
  pose proof (Nat.div_mod_eq (N - 1) M) as Hdiv.
  assert (Hmul : (k + 1) * M <= (N - 1) / M * M)
    by (apply Nat.mul_le_mono_r; lia).
  nia.
Qed.

(** The mini-batches of the loop, with the slices written out. *)
Lemma batch_loop_chunks agent optim (buffer : Batch Obs) (M : nat) :
  0 < M -> stacked_buffer buffer ->
  batch_loop batched_policy grad_loss_fn apply_gradients agent optim buffer M =
  Ok (train_on_batches
        (map (fun k =>
                TrainingExample.Build
                  (firstn M (skipn (k * M) (TrainingExample.state buffer)))
                  (firstn M (skipn (k * M)
                                   (TrainingExample.action_weights buffer)))
                  (firstn M (skipn (k * M) (TrainingExample.value buffer))))
             (seq 0 ((length (TrainingExample.state buffer) - 1) / M)))
        (agent, optim, [])).
Proof.
  intros HM Hstacked.
  rewrite batch_loop_slices by assumption.
  do 2 f_equal.
  apply map_ext_in; intros k Hk.
  apply in_seq in Hk.
  apply tree_slice_inside; [assumption|].
  apply steps_inside; lia.
Qed.

(** X9.  The loop over the mini-batches runs [(N - 1) / M] training steps on
    a stacked buffer of [N] examples, and every mini-batch it trains on
    holds exactly [M] states, [M] action weights and [M] values: no step is
    run on a shorter mini-batch. *)
Theorem batch_loop_full_batches agent optim (buffer : Batch Obs) (M : nat) :
  0 < M -> stacked_buffer buffer ->
  exists batches,
    batch_loop batched_policy grad_loss_fn apply_gradients
               agent optim buffer M =
    Ok (train_on batched_policy grad_loss_fn apply_gradients batches (agent, optim, [])) /\
    length batches = (length (TrainingExample.state buffer) - 1) / M /\
    Forall (fun batch =>
              length (TrainingExample.state batch) = M /\
              length (TrainingExample.action_weights batch) = M /\
              length (TrainingExample.value batch) = M)
           batches.
Proof.
  intros HM Hstacked.
  eexists; split; [apply batch_loop_chunks; assumption|].
  split; [rewrite length_map, length_seq; reflexivity|].
  apply Forall_map, Forall_forall; intros k Hk; apply in_seq in Hk.
  pose proof (steps_inside (length (TrainingExample.state buffer)) M k HM
                ltac:(lia)) as Hle.
  destruct Hstacked as [Ha Hv]; simpl.
  rewrite !length_firstn, !length_skipn; lia.
Qed.

(** X10.  The mini-batches of the loop, one after the other, are the first
    [(N - 1) / M * M] examples of the stacked buffer, in their order: each of
    these examples is in one training step, the examples after them in
    none. *)
Theorem batch_loop_prefix agent optim (buffer : Batch Obs) (M : nat) :
  0 < M -> stacked_buffer buffer ->
  exists batches,
    batch_loop batched_policy grad_loss_fn apply_gradients
               agent optim buffer M =
    Ok (train_on batched_policy grad_loss_fn apply_gradients batches (agent, optim, [])) /\
    let used := (length (TrainingExample.state buffer) - 1) / M * M in
    concat (map (@TrainingExample.state _ _ _) batches) =
    firstn used (TrainingExample.state buffer) /\
    concat (map (@TrainingExample.action_weights _ _ _) batches) =
    firstn used (TrainingExample.action_weights buffer) /\
    concat (map (@TrainingExample.value _ _ _) batches) =
    firstn used (TrainingExample.value buffer).
Proof.
  intros HM Hstacked.
  eexists; split; [apply batch_loop_chunks; assumption|].
  cbv zeta; rewrite !map_map; simpl.
  repeat split; apply concat_chunks.
Qed.

Lemma train_on_value_losses (batches : list (Batch Obs)) agent optim losses :
  Forall (fun loss => (0 <= fst loss)%R) losses ->
  Forall (fun loss => (0 <= fst loss)%R)
         (snd (train_on_batches batches (agent, optim, losses))).
Proof.
  unfold train_on.
  revert agent optim losses; induction batches as [|b batches IH];
    intros agent optim losses Hlosses; simpl; [assumption|].
  unfold train_step at 2.
  pose proof (value_loss_nonneg batched_policy agent b) as Hb.
  unfold value_loss in Hb.
  destruct (loss_fn batched_policy agent b) as [total loss].
  destruct (apply_gradients agent optim _) as [agent' optim'].
  apply IH, Forall_app; split; [assumption|].
  constructor; [exact Hb | constructor].
Qed.

(** X11.  The average of the value losses that an iteration reports is not
    negative. *)
Theorem train_epoch_value_loss_nonneg agent optim
    (buffer : list (Sample Obs (list R) R)) (M : nat)
    agent' optim' value_loss policy_loss :
  train_epoch batched_policy grad_loss_fn apply_gradients
              agent optim buffer M =
  Ok (agent', optim', (value_loss, policy_loss)) ->
  (0 <= value_loss)%R.
Proof.
  unfold train_epoch.
  destruct (tree_stack buffer) as [stacked|e]; [|discriminate].
  cbn [bind].
  destruct M as [|M]; [discriminate|].
  rewrite batch_loop_slices by lia; cbn [bind].
  set (batches := map _ _).
  pose proof (train_on_value_losses batches agent optim [] (Forall_nil _))
    as Hlosses.
  destruct (train_on_batches batches (agent, optim, []))
    as [[agent'' optim''] losses].
  simpl in Hlosses.
  destruct losses as [|loss losses]; [discriminate|].
  cbn [bind unzip_losses].
  intros [= _ _ <- _].
  apply (mean_nonneg (map fst (loss :: losses))).
  apply Forall_map, Hlosses.
Qed.

End TrainingMore.

(** ** The self-play driver *)

Section SelfPlayMore.

Variables Agent Env Key Obs Logits Val Action AW Rew Mask : Type.

Variable split : Key -> nat -> list Key.
Variable reset_env : Env -> Env.
Variable canonical_observation : Env -> Obs.
Variable is_terminated : Env -> bool.
Variable invalid_actions : Env -> Mask.
Variable batched_policy : Agent -> list Obs -> list Logits * list Val.
Variable gumbel_muzero_policy :
  Agent -> Key -> list Logits * list Val * list Env -> list Mask ->
  list Action * list AW.
Variable env_step : Env -> Action -> Env * Rew.

(** [jax.random.split(key, n)] returns [n] keys. *)
Hypothesis split_length : forall key n, length (split key n) = n.

Local Notation "'driver'" :=
  (collect_batched_selfplay_data split reset_env canonical_observation
     is_terminated invalid_actions batched_policy gumbel_muzero_policy env_step)
  (only parsing).

Local Notation "'one_move'" :=
  (single_move split canonical_observation is_terminated invalid_actions
     batched_policy gumbel_muzero_policy env_step)
  (only parsing).

Local Notation "'collect'" :=
  (collect_selfplay_data split reset_env canonical_observation
     is_terminated invalid_actions batched_policy gumbel_muzero_policy env_step)
  (only parsing).

Lemma swapaxes_head {A : Type} (row : list A) rows g x :
  nth_error row g = Some x ->
  nth_error (swapaxes (row :: rows)) g =
  Some (x :: flat_map (pick g) rows).
Proof.
  intros Hx.
  assert (Hg : g < length row) by (apply nth_error_Some; congruence).
  unfold swapaxes.
  rewrite nth_error_map, nth_error_seq.
  apply Nat.ltb_lt in Hg; rewrite Hg; simpl.
  rewrite Hx; reflexivity.
Qed.

(** The first ply of the rows of [swapaxes] is the first row. *)
Lemma swapaxes_first {A : Type} (row : list A) rows game :
  In game (swapaxes (row :: rows)) ->
  exists x, In x row /\ hd_error game = Some x.
Proof.
  unfold swapaxes; intros Hin.
  apply in_map_iff in Hin as (g & <- & Hg); apply in_seq in Hg.
  destruct (nth_error row g) as [x|] eqn:Hx;
    [|apply nth_error_None in Hx; lia].
  exists x; split; [eapply nth_error_In; eassumption|].
  simpl; rewrite Hx; reflexivity.
Qed.

Lemma scan_first_output agent n env key final outs :
  scan (one_move agent) (env, key) (S n) = Ok (final, outs) ->
  exists out outs',
    outs = out :: outs' /\
    MoveOutput.state out = map canonical_observation env /\
    MoveOutput.terminated out = map is_terminated env.
Proof.
  cbn [scan]; unfold single_move at 1.
  destruct (split2 split key) as [[a b]|e]; [|discriminate].
  cbn [bind].
  destruct (batched_policy agent _) as [prior_logits value].
  destruct (gumbel_muzero_policy agent a _ _) as [action action_weights].
  cbn [bind].
  destruct (scan _ _ n) as [[s' os]|e]; [|discriminate].
  cbn [bind]; intros [= _ <-].
  do 2 eexists; split; [reflexivity|]; split; reflexivity.
Qed.

(** The first ply of every game is that of the environment after its
    reset. *)
Lemma first_ply_of_driver agent env key batch_size batch :
  collect_batched_selfplay_data split reset_env canonical_observation
    is_terminated invalid_actions batched_policy gumbel_muzero_policy env_step
    agent env key batch_size = Ok batch ->
  (forall game, In game (MoveOutput.state batch) ->
     hd_error game = Some (canonical_observation (reset_env env))) /\
  (forall game, In game (MoveOutput.terminated batch) ->
     hd_error game = Some (is_terminated (reset_env env))).
Proof.
  unfold collect_batched_selfplay_data.
  destruct (scan (one_move agent) (replicate (reset_env env) batch_size, key) 4)
    as [[final outs]|e] eqn:Hscan; [|discriminate].
  apply scan_first_output in Hscan as (out & outs' & -> & Hstate & Hterm).
  cbn [bind]; intros [= <-]; simpl.
  split; intros game Hin.
  - apply swapaxes_first in Hin as (x & Hx & ->).
    rewrite Hstate in Hx; apply in_map_iff in Hx as (e & <- & He).
    apply repeat_spec in He; subst e; reflexivity.
  - apply swapaxes_first in Hin as (x & Hx & ->).
    rewrite Hterm in Hx; apply in_map_iff in Hx as (e & <- & He).
    apply repeat_spec in He; subst e; reflexivity.
Qed.

(** X12.  Whatever the agent, the key and the search return, the first ply
    that the driver records for a game has the observation and the flag
    [terminated] of the environment after [reset_env]. *)
Theorem driver_first_ply agent env key batch_size batch :
  collect_batched_selfplay_data split reset_env canonical_observation
    is_terminated invalid_actions batched_policy gumbel_muzero_policy env_step
    agent env key batch_size = Ok batch ->
  (forall game, In game (MoveOutput.state batch) ->
     hd_error game = Some (canonical_observation (reset_env env))) /\
  (forall game, In game (MoveOutput.terminated batch) ->
     hd_error game = Some (is_terminated (reset_env env))).
Proof. apply first_ply_of_driver. Qed.

(** *** The shape of the trajectories *)

(** The search returns one action and one vector of action weights for each
    root of the batch. *)
Hypothesis search_batch : forall agent key logits value env masks,
  length (fst (gumbel_muzero_policy agent key (logits, value, env) masks)) =
  length env /\
  length (snd (gumbel_muzero_policy agent key (logits, value, env) masks)) =
  length env.

Lemma one_move_shape agent env key :
  exists env' key' out,
    one_move agent (env, key) = Ok ((env', key'), out) /\
    length env' = length env /\
    ply_lengths out (length env).
Proof.
  unfold single_move.
  destruct (split2_ok _ split split_length key) as (a & b & ->); cbn [bind].
  destruct (batched_policy agent _) as [prior_logits value].
  pose proof (search_batch agent a prior_logits value env
                (map invalid_actions env)) as [Hactions Hweights].
  destruct (gumbel_muzero_policy agent a _ _) as [action action_weights].
  simpl in Hactions, Hweights.
  do 3 eexists; split; [reflexivity|].
  unfold ply_lengths; simpl.
  rewrite !length_map, length_combine; repeat split; lia.
Qed.

Lemma scan_shape agent n : forall env key,
  exists final outs,
    scan (one_move agent) (env, key) n = Ok (final, outs) /\
    length outs = n /\
    Forall (fun out => ply_lengths out (length env)) outs.
Proof.
  induction n as [|n IH]; intros env key; cbn [scan].
  - exists (env, key), []; repeat split; constructor.
  - destruct (one_move_shape agent env key)
      as (env' & key' & out & -> & Henv & Hout).
    cbn [bind].
    destruct (IH env' key') as (final & outs & -> & Hlen & Houts).
    cbn [bind].
    exists final, (out :: outs); split; [reflexivity|].
    split; [simpl; lia|].
    constructor; [exact Hout|].
    rewrite Henv in Houts; exact Houts.
Qed.

Lemma length_flat_map_pick {A : Type} (rows : list (list A)) g B :
  g < B -> Forall (fun row => length row = B) rows ->
  length (flat_map (pick g) rows) = length rows.
Proof.
  intros Hg; induction 1 as [|row rows Hrow _ IH]; [reflexivity|].
  simpl; rewrite length_app, IH; unfold pick.
  destruct (nth_error row g) eqn:Hx; [reflexivity|].
  apply nth_error_None in Hx; lia.
Qed.

Lemma map_const_seq {A : Type} (x : A) start n :
  map (fun _ : nat => x) (seq start n) = repeat x n.
Proof.
  revert start; induction n as [|n IH]; intros start; simpl;
    [reflexivity | rewrite IH; reflexivity].
Qed.

Lemma shape_swapaxes {A : Type} (rows : list (list A)) B :
  rows <> [] -> Forall (fun row => length row = B) rows ->
  shape (swapaxes rows) = repeat (length rows) B.
Proof.
  intros Hne Hrows.
  destruct rows as [|row rows']; [congruence|].
  assert (Hrow : length row = B) by (inversion Hrows; assumption).
  unfold swapaxes, shape; rewrite map_map, Hrow.
  transitivity (map (fun _ : nat => length (row :: rows')) (seq 0 B)).
  - apply map_ext_in; intros g Hg; apply in_seq in Hg.
    apply (length_flat_map_pick (row :: rows') g B); [lia | assumption].
  - apply map_const_seq.
Qed.

(** The shape of the four arrays of the driver. *)
Lemma shape_of_driver agent env key batch_size :
  exists batch,
    collect_batched_selfplay_data split reset_env canonical_observation
    is_terminated invalid_actions batched_policy gumbel_muzero_policy env_step
    agent env key batch_size = Ok batch /\
    shape (MoveOutput.state batch) = repeat 4 batch_size /\
    shape (MoveOutput.reward batch) = repeat 4 batch_size /\
    shape (MoveOutput.terminated batch) = repeat 4 batch_size /\
    shape (MoveOutput.action_weights batch) = repeat 4 batch_size.
Proof.
  unfold collect_batched_selfplay_data.
  destruct (scan_shape agent 4 (replicate (reset_env env) batch_size) key)
    as (final & outs & -> & Hlen & Houts).
  cbn [bind]; eexists; split; [reflexivity|].
  unfold replicate in Houts; rewrite repeat_length in Houts.
  assert (Hfield : forall A (f : PlyOutput Obs AW Rew -> list A),
             (forall out, ply_lengths out batch_size ->
                          length (f out) = batch_size) ->
             shape (swapaxes (map f outs)) = repeat 4 batch_size).
  { intros A f Hf.
    rewrite shape_swapaxes with (B := batch_size).
    - rewrite length_map, Hlen; reflexivity.
    - destruct outs; discriminate.
    - apply Forall_map; revert Houts; apply Forall_impl; exact Hf. }
  simpl; repeat split; apply Hfield;
    intros out (Hs & Hr & Ht & Ha); assumption.
Qed.

(** X13.  When the search returns one action and one vector of weights per
    root, the driver returns the trajectories of [batch_size] games of four
    plies each, in every one of its four arrays. *)
Theorem driver_shape agent env key batch_size :
  exists batch,
    collect_batched_selfplay_data split reset_env canonical_observation
    is_terminated invalid_actions batched_policy gumbel_muzero_policy env_step
    agent env key batch_size = Ok batch /\
    shape (MoveOutput.state batch) = repeat 4 batch_size /\
    shape (MoveOutput.reward batch) = repeat 4 batch_size /\
    shape (MoveOutput.terminated batch) = repeat 4 batch_size /\
    shape (MoveOutput.action_weights batch) = repeat 4 batch_size.
Proof. apply shape_of_driver. Qed.

(** *** The corpus *)

Lemma batches_of_corpus agent env key batch_size N :
  exists batches,
    selfplay_batches split reset_env canonical_observation is_terminated
      invalid_actions batched_policy gumbel_muzero_policy env_step
      agent env key batch_size N = Ok batches /\
    length batches = N /\
    Forall (fun batch =>
              exists key', driver agent env key' batch_size = Ok batch)
           batches.
Proof.
  destruct (selfplay_batches_ok _ _ _ _ _ _ _ _ _ _ split reset_env
              canonical_observation is_terminated invalid_actions
              batched_policy gumbel_muzero_policy env_step split_length
              agent env key batch_size N) as (batches & Hloop & Hall & Hlen).
  exists batches; split; [exact Hloop|]; split; [exact Hlen|].
  clear - Hall; induction Hall as [|k b ks bs Hb _ IH]; constructor; eauto.
Qed.

Lemma collect_ok agent env key batch_size data_size :
  0 < batch_size <= data_size ->
  exists data, collect agent env key batch_size data_size = Ok data.
Proof.
  intros [Hpos Hle].
  unfold collect_selfplay_data.
  rewrite floordiv_pos by assumption; cbn [bind].
  destruct (batches_of_corpus agent env key batch_size
              (data_size / batch_size)) as (batches & -> & Hlen & _).
  cbn [bind].
  rewrite tree_concatenate_ok by (rewrite Hlen; apply Nat.div_str_pos; lia).
  eexists; reflexivity.
Qed.

(** X14.  [collect_selfplay_data] returns a corpus exactly when the size of
    the batches is at least one and at most [data_size]: it raises
    [ZeroDivisionError] for batches of size zero and [TypeError] for batches
    larger than [data_size]. *)
Theorem collect_selfplay_data_returns_iff agent env key batch_size data_size :
  ((exists data, collect_selfplay_data split reset_env canonical_observation
    is_terminated invalid_actions batched_policy gumbel_muzero_policy env_step
    agent env key batch_size data_size = Ok data) <->
   0 < batch_size <= data_size) /\
  (batch_size = 0 ->
   collect_selfplay_data split reset_env canonical_observation
    is_terminated invalid_actions batched_policy gumbel_muzero_policy env_step
    agent env key batch_size data_size = Raise ZeroDivisionError) /\
  (data_size < batch_size ->
   collect_selfplay_data split reset_env canonical_observation
    is_terminated invalid_actions batched_policy gumbel_muzero_policy env_step
    agent env key batch_size data_size = Raise TypeError).
Proof.
  assert (Hsmall : data_size < batch_size ->
                   collect agent env key batch_size data_size = Raise TypeError).
  { intros Hlt.
    apply (collect_selfplay_data_small _ _ _ _ _ _ _ _ _ _ split reset_env
             canonical_observation is_terminated invalid_actions
             batched_policy gumbel_muzero_policy env_step split_length
             agent env key batch_size data_size Hlt). }
  split; [|split; [intros ->; reflexivity | exact Hsmall]].
  split.
  - intros (data & Hdata).
    destruct batch_size as [|B]; [discriminate|].
    destruct (Nat.le_gt_cases (S B) data_size) as [Hle|Hgt]; [lia|].
    rewrite (Hsmall Hgt) in Hdata; discriminate.
  - apply collect_ok.
Qed.

Lemma n_games_concatenated (batches : list (Trajectories Obs AW Rew)) B :
  Forall (fun batch => n_games batch = B) batches ->
  n_games (concatenated batches) = length batches * B.
Proof.
  unfold n_games, concatenated; simpl.
  induction 1 as [|b bs Hb _ IH]; [reflexivity|].
  simpl; rewrite length_app, IH, Hb; reflexivity.
Qed.

Lemma driver_games agent env key batch_size batch :
  driver agent env key batch_size = Ok batch -> n_games batch = batch_size.
Proof.
  intros Hbatch.
  destruct (driver_ok _ _ _ _ _ _ _ _ _ _ split reset_env
              canonical_observation is_terminated invalid_actions
              batched_policy gumbel_muzero_policy env_step split_length
              agent env key batch_size) as (batch' & Hbatch' & Hn).
  congruence.
Qed.

(** The corpus as the concatenation of its batches. *)
Lemma collect_concatenated agent env key batch_size data_size data :
  collect agent env key batch_size data_size = Ok data ->
  exists batches,
    data = concatenated batches /\
    length batches = data_size / batch_size /\
    Forall (fun batch =>
              exists key', driver agent env key' batch_size = Ok batch)
           batches.
Proof.
  unfold collect_selfplay_data.
  destruct batch_size as [|B]; [discriminate|].
  rewrite floordiv_pos by lia; cbn [bind].
  destruct (batches_of_corpus agent env key (S B) (data_size / S B))
    as (batches & -> & Hlen & Hall).
  cbn [bind]; intros Hdata.
  apply tree_concatenate_concatenated in Hdata.
  exists batches; auto.
Qed.

(** X15.  When the size of the batches divides [data_size], the corpus
    holds exactly [data_size] games. *)
Theorem collect_selfplay_data_exact agent env key batch_size data_size data :
  data_size mod batch_size = 0 ->
  collect_selfplay_data split reset_env canonical_observation
    is_terminated invalid_actions batched_policy gumbel_muzero_policy env_step
    agent env key batch_size data_size = Ok data ->
  n_games data = data_size.
Proof.
  intros Hmod Hdata.
  assert (Hpos : batch_size <> 0) by (intros ->; discriminate).
  apply collect_concatenated in Hdata as (batches & -> & Hlen & Hall).
  rewrite (n_games_concatenated batches batch_size).
  - rewrite Hlen.
    pose proof (Nat.div_mod_eq data_size batch_size); lia.
  - revert Hall; apply Forall_impl; intros batch (key' & Hbatch).
    apply (driver_games agent env key' batch_size batch Hbatch).
Qed.

Lemma shape_repeat_lengths {A : Type} (xss : list (list A)) n B :
  shape xss = repeat n B -> Forall (fun row => length row = n) xss.
Proof.
  unfold shape; revert B; induction xss as [|xs xss IH]; intros [|B]; simpl;
    try discriminate; constructor.
  - congruence.
  - apply (IH B); congruence.
Qed.

(** A batch of the driver: one shape for its four arrays, four plies per
    game. *)
Lemma driver_batch agent env key batch_size batch :
  driver agent env key batch_size = Ok batch ->
  well_shaped batch /\
  Forall (fun row => length row = 4) (MoveOutput.terminated batch).
Proof.
  intros Hbatch.
  destruct (shape_of_driver agent env key batch_size)
    as (batch' & Hbatch' & Hs & Hr & Ht & Ha).
  rewrite Hbatch in Hbatch'; injection Hbatch' as <-.
  split; [repeat split; congruence|].
  apply (shape_repeat_lengths _ _ _ Ht).
Qed.

Lemma count_live_upper (rows : list (list bool)) n :
  Forall (fun row => length row = n) rows ->
  length (filter negb (concat rows)) <= n * length rows.
Proof.
  induction 1 as [|row rows Hrow _ IH]; simpl; [lia|].
  rewrite filter_app, length_app.
  pose proof (filter_length_le negb row); lia.
Qed.

Lemma count_live_lower (rows : list (list bool)) :
  Forall (fun row => hd_error row = Some false) rows ->
  length rows <= length (filter negb (concat rows)).
Proof.
  induction 1 as [|row rows Hrow _ IH]; simpl; [lia|].
  rewrite filter_app, length_app.
  destruct row as [|b row]; [discriminate|].
  injection Hrow as ->; simpl; lia.
Qed.

(** The corpus: one shape, four plies per game, and first plies that are
    those of the environment after its reset. *)
Lemma corpus_shape agent env key batch_size data_size data :
  collect agent env key batch_size data_size = Ok data ->
  well_shaped data /\
  Forall (fun row => length row = 4) (MoveOutput.terminated data) /\
  Forall (fun row => hd_error row = Some (is_terminated (reset_env env)))
         (MoveOutput.terminated data).
Proof.
  intros Hdata.
  apply collect_concatenated in Hdata as (batches & -> & _ & Hall).
  split; [|split].
  - apply well_shaped_concatenated.
    revert Hall; apply Forall_impl; intros batch (key' & Hbatch).
    apply (driver_batch agent env key' batch_size batch Hbatch).
  - simpl; induction Hall as [|batch batches (key' & Hbatch) _ IH];
      [constructor|].
    simpl; apply Forall_app; split; [|exact IH].
    apply (driver_batch agent env key' batch_size batch Hbatch).
  - simpl; induction Hall as [|batch batches (key' & Hbatch) _ IH];
      [constructor|].
    simpl; apply Forall_app; split; [|exact IH].
    apply Forall_forall; intros row Hrow.
    apply (first_ply_of_driver agent env key' batch_size batch Hbatch), Hrow.
Qed.

Lemma corpus_compiles (neg : Rew -> Rew)
    agent env key batch_size data_size data :
  collect agent env key batch_size data_size = Ok data ->
  exists buffer,
    prepare_training_data neg data = Ok buffer /\
    length buffer <= 4 * n_games data /\
    (is_terminated (reset_env env) = false -> n_games data <= length buffer).
Proof.
  intros Hdata.
  destruct (corpus_shape agent env key batch_size data_size data Hdata)
    as (Hshape & Hfour & Hfirst).
  eexists; split; [apply prepare_training_data_games, Hshape|].
  rewrite length_compiled_games by assumption.
  unfold n_games; split.
  - apply count_live_upper, Hfour.
  - intros Hstart; rewrite Hstart in Hfirst.
    apply count_live_lower, Hfirst.
Qed.

(** X16.  When the search returns one action and one vector of weights per
    root, the compiler does not raise on a corpus of
    [collect_selfplay_data]: it returns a buffer of at most four examples per
    game, and of at least one per game when the environment is not
    terminated after its reset. *)
Theorem collected_data_compiles (neg : Rew -> Rew)
    agent env key batch_size data_size data :
  collect_selfplay_data split reset_env canonical_observation
    is_terminated invalid_actions batched_policy gumbel_muzero_policy env_step
    agent env key batch_size data_size = Ok data ->
  exists buffer,
    prepare_training_data neg data = Ok buffer /\
    length buffer <= 4 * n_games data /\
    (is_terminated (reset_env env) = false -> n_games data <= length buffer).
Proof. apply corpus_compiles. Qed.

Lemma corpus_games agent env key batch_size data_size data :
  collect agent env key batch_size data_size = Ok data ->
  n_games data = data_size / batch_size * batch_size.
Proof.
  intros Hdata.
  apply collect_concatenated in Hdata as (batches & -> & Hlen & Hall).
  rewrite (n_games_concatenated batches batch_size), Hlen; [reflexivity|].
  revert Hall; apply Forall_impl; intros batch (key' & Hbatch).
  apply (driver_games agent env key' batch_size batch Hbatch).
Qed.

(** *** Padding *)

(** A terminated environment stays terminated when it is stepped. *)
Hypothesis terminated_stays : forall env action,
  is_terminated env = true ->
  is_terminated (fst (env_step env action)) = true.

Lemma one_move_games agent env key env' key' out :
  one_move agent (env, key) = Ok ((env', key'), out) ->
  MoveOutput.terminated out = map is_terminated env /\
  forall g e, nth_error env g = Some e ->
    exists action, nth_error env' g = Some (fst (env_step e action)).
Proof.
  unfold single_move.
  destruct (split2 split key) as [[a b]|e]; [|discriminate].
  cbn [bind].
  destruct (batched_policy agent _) as [prior_logits value].
  pose proof (search_batch agent a prior_logits value env
                (map invalid_actions env)) as [Hactions _].
  destruct (gumbel_muzero_policy agent a _ _) as [action action_weights].
  simpl in Hactions.
  intros [= <- _ <-]; split; [reflexivity|].
  intros g e Hg.
  assert (Hlt : g < length action)
    by (rewrite Hactions; apply nth_error_Some; congruence).
  apply nth_error_Some in Hlt.
  destruct (nth_error action g) as [x|] eqn:Hx; [|congruence].
  exists x.
  rewrite !nth_error_map.
  assert (Hpair : nth_error (combine env action) g = Some (e, x)).
  { clear - Hg Hx; revert env action Hg Hx.
    induction g as [|g IH]; intros [|e0 env] [|x0 action]; simpl;
      try discriminate.
    - intros [= ->] [= ->]; reflexivity.
    - apply IH. }
  rewrite Hpair; reflexivity.
Qed.

(** The flags of one game along the plies of a scan. *)
Lemma scan_flags agent n : forall env key final outs g e,
  scan (one_move agent) (env, key) n = Ok (final, outs) ->
  nth_error env g = Some e ->
  exists k,
    k <= n /\
    flat_map (pick g) (map (@MoveOutput.terminated _ _ _ _) outs) =
    repeat false k ++ repeat true (n - k) /\
    (is_terminated e = true -> k = 0).
Proof.
  induction n as [|n IH]; intros env key final outs g e; cbn [scan].
  - intros [= _ <-] _; exists 0; repeat split; auto.
  - destruct (one_move agent (env, key)) as [[[env' key'] out]|err] eqn:Hmove;
      [|discriminate].
    cbn [bind].
    destruct (scan (one_move agent) (env', key') n) as [[final' outs']|err]
      eqn:Hscan; [|discriminate].
    cbn [bind]; intros [= _ <-] Hg.
    destruct (one_move_games agent env key env' key' out Hmove)
      as [Hterm Hnext].
    destruct (Hnext g e Hg) as (action & Hg').
    destruct (IH env' key' final' outs' g _ Hscan Hg') as (k & Hk & Hrow & Hzero).
    simpl; rewrite Hrow.
    unfold pick; rewrite Hterm, nth_error_map, Hg; simpl.
    destruct (is_terminated e) eqn:He.
    + exists 0; split; [lia|]; split; [|reflexivity].
      rewrite (Hzero (terminated_stays e action He)).
      simpl; rewrite Nat.sub_0_r; reflexivity.
    + exists (S k); split; [lia|]; split; [reflexivity | discriminate].
Qed.

(** X19.  When the search returns one action and one vector of weights per
    root and a terminated environment stays terminated, the flags that the
    driver records for a game are false up to some ply and true from then
    on: the plies of padding are the last plies of the game. *)
Theorem driver_padding_last agent env key batch_size batch :
  collect_batched_selfplay_data split reset_env canonical_observation
    is_terminated invalid_actions batched_policy gumbel_muzero_policy env_step
    agent env key batch_size = Ok batch ->
  forall flags, In flags (MoveOutput.terminated batch) ->
    exists k, k <= 4 /\ flags = repeat false k ++ repeat true (4 - k).
Proof.
  unfold collect_batched_selfplay_data.
  destruct (scan (one_move agent) (replicate (reset_env env) batch_size, key) 4)
    as [[final outs]|e] eqn:Hscan; [|discriminate].
  cbn [bind]; intros [= <-] flags Hin; simpl in Hin.
  destruct (scan_first_output agent 3 _ _ _ _ Hscan)
    as (out & outs' & Houts & _ & Hterm).
  subst outs.
  change (map (@MoveOutput.terminated _ _ _ _) (out :: outs'))
    with (MoveOutput.terminated out
            :: map (@MoveOutput.terminated _ _ _ _) outs') in Hin.
  unfold swapaxes in Hin.
  apply in_map_iff in Hin as (g & <- & Hg); apply in_seq in Hg.
  rewrite Hterm, length_map in Hg.
  unfold replicate in Hg; rewrite repeat_length in Hg.
  assert (Henv : nth_error (replicate (reset_env env) batch_size) g =
                 Some (reset_env env))
    by (unfold replicate; rewrite nth_error_repeat by lia; reflexivity).
  destruct (scan_flags agent 4 _ key final (out :: outs') g _ Hscan Henv)
    as (k & Hk & Hrow & _).
  exists k; split; [exact Hk|].
  exact Hrow.
Qed.

End SelfPlayMore.

(** ** The iterations of [train] *)

Section TrainMore.

Variables Net Optim Env Key Obs Action Mask Grads PyRandom : Type.

Variable split : Key -> nat -> list Key.
Variable reset_env : Env -> Env.
Variable canonical_observation : Env -> Obs.
Variable is_terminated : Env -> bool.
Variable invalid_actions : Env -> Mask.
Variable batched_policy : Net -> list Obs -> list (list R) * list R.
Variable gumbel_muzero_policy :
  Net -> Key -> list (list R) * list R * list Env -> list Mask ->
  list Action * list (list R).
Variable env_step : Env -> Action -> Env * R.
Variable grad_loss_fn : Net -> Batch Obs -> Grads.
Variable apply_gradients : Net -> Optim -> Grads -> Net * Optim.
Variable shuffle :
  PyRandom -> list (Sample Obs (list R) R) ->
  list (Sample Obs (list R) R) * PyRandom.

(** [jax.random.split(key, n)] returns [n] keys. *)
Hypothesis split_length : forall key n, length (split key n) = n.

Local Notation "'iteration'" :=
  (train_iteration split reset_env canonical_observation is_terminated
     invalid_actions batched_policy gumbel_muzero_policy env_step
     grad_loss_fn apply_gradients shuffle) (only parsing).

Local Notation "'run_train'" :=
  (train split reset_env canonical_observation is_terminated
     invalid_actions batched_policy gumbel_muzero_policy env_step
     grad_loss_fn apply_gradients shuffle) (only parsing).

Local Notation "'collect'" :=
  (collect_selfplay_data split reset_env canonical_observation
     is_terminated invalid_actions batched_policy gumbel_muzero_policy env_step)
  (only parsing).

Lemma iteration_collect_raises env batch_size agent optim key random printed
    i e :
  (forall key', collect agent env key' batch_size 1024 = Raise e) ->
  iteration env batch_size (agent, optim, key, random, printed) i = Raise e.
Proof.
  intros Hcollect; unfold train_iteration.
  destruct (split2_ok _ split split_length key) as (a & b & ->); cbn [bind].
  rewrite Hcollect; reflexivity.
Qed.

(** X17.  With at least one iteration, [train] raises [ZeroDivisionError]
    for mini-batches of size zero and [TypeError] for mini-batches of more
    than 1024 examples, the size of the corpus of an iteration: no weights
    are returned. *)
Theorem train_batch_size_out_of_range agent env key optim random
    batch_size num_iterations :
  0 < num_iterations ->
  (batch_size = 0 ->
   train split reset_env canonical_observation is_terminated
    invalid_actions batched_policy gumbel_muzero_policy env_step
    grad_loss_fn apply_gradients shuffle
    agent env key optim random batch_size num_iterations =
   Raise ZeroDivisionError) /\
  (1024 < batch_size ->
   train split reset_env canonical_observation is_terminated
    invalid_actions batched_policy gumbel_muzero_policy env_step
    grad_loss_fn apply_gradients shuffle
    agent env key optim random batch_size num_iterations =
   Raise TypeError).
Proof.
  intros Hn; unfold train.
  destruct num_iterations as [|n]; [lia|].
  change (seq 0 (S n)) with (0 :: seq 1 n); cbn [for_each].
  split; intros HB.
  - rewrite (iteration_collect_raises env batch_size agent optim key random []
               0 ZeroDivisionError); [reflexivity|].
    intros key'; subst batch_size; reflexivity.
  - rewrite (iteration_collect_raises env batch_size agent optim key random []
               0 TypeError); [reflexivity|].
    intros key'.
    apply (collect_selfplay_data_small _ _ _ _ _ _ _ _ _ _ split reset_env
             canonical_observation is_terminated invalid_actions
             batched_policy gumbel_muzero_policy env_step split_length
             agent env key' batch_size 1024 HB).
Qed.

(** *** Iterations that complete *)

(** The search returns one action and one vector of action weights for each
    root of the batch. *)
Hypothesis search_batch : forall agent key logits value env masks,
  length (fst (gumbel_muzero_policy agent key (logits, value, env) masks)) =
  length env /\
  length (snd (gumbel_muzero_policy agent key (logits, value, env) masks)) =
  length env.


(** [random.shuffle] keeps the number of examples. *)
Hypothesis shuffle_length : forall random buffer,
  length (fst (shuffle random buffer)) = length buffer.

Lemma iteration_ok env batch_size agent optim key random printed i :
  0 < batch_size <= 512 ->
  is_terminated (reset_env env) = false ->
  exists agent' optim' key' random' losses,
    iteration env batch_size (agent, optim, key, random, printed) i =
    Ok (agent', optim', key', random', printed ++ [losses]).
Proof.
  intros [Hpos Hle] Hstart; unfold train_iteration.
  destruct (split2_ok _ split split_length key) as (a & b & ->); cbn [bind].
  destruct (collect_ok _ _ _ _ _ _ _ _ _ _ split reset_env
              canonical_observation is_terminated invalid_actions
              batched_policy gumbel_muzero_policy env_step split_length
              agent env a batch_size 1024 ltac:(lia)) as (data & Hdata).
  rewrite Hdata; cbn [bind].
  destruct (corpus_compiles _ _ _ _ _ _ _ _ _ _ split reset_env
              canonical_observation is_terminated invalid_actions
              batched_policy gumbel_muzero_policy env_step split_length
              search_batch Ropp agent env a batch_size 1024 data Hdata)
    as (buffer & -> & _ & Hlower).
  cbn [bind].
  specialize (Hlower Hstart).
  rewrite (corpus_games _ _ _ _ _ _ _ _ _ _ split reset_env
             canonical_observation is_terminated invalid_actions
             batched_policy gumbel_muzero_policy env_step split_length
             agent env a batch_size 1024 data Hdata) in Hlower.
  assert (Htwo : 2 <= 1024 / batch_size)
    by (apply Nat.div_le_lower_bound; lia).
  pose proof (shuffle_length random buffer) as Hshuffle.
  destruct (shuffle random buffer) as [shuffled random']; simpl in Hshuffle.
  destruct (train_epoch_ok _ _ _ _ batched_policy grad_loss_fn
              apply_gradients agent optim shuffled batch_size ltac:(nia))
    as ([[agent' optim'] losses] & ->).
  cbn [bind].
  exists agent', optim', b, random', losses; reflexivity.
Qed.

Lemma iterations_ok env batch_size (iterations : list nat) :
  0 < batch_size <= 512 ->
  is_terminated (reset_env env) = false ->
  forall agent optim key random printed,
  exists agent' optim' key' random' printed',
    for_each (iteration env batch_size) iterations
             (agent, optim, key, random, printed) =
    Ok (agent', optim', key', random', printed') /\
    length printed' = length printed + length iterations.
Proof.
  intros HB Hstart.
  induction iterations as [|i iterations IH];
    intros agent optim key random printed; cbn [for_each].
  - exists agent, optim, key, random, printed; split; [reflexivity | simpl; lia].
  - destruct (iteration_ok env batch_size agent optim key random printed i
                HB Hstart) as (agent1 & optim1 & key1 & random1 & losses & ->).
    cbn [bind].
    destruct (IH agent1 optim1 key1 random1 (printed ++ [losses]))
      as (agent' & optim' & key' & random' & printed' & -> & Hlen).
    exists agent', optim', key', random', printed'; split; [reflexivity|].
    rewrite Hlen, length_app; simpl; lia.
Qed.

(** X18.  For mini-batches of 1 to 512 examples, an environment that is not
    terminated after its reset, a search that returns one action and one
    vector of weights per root and a shuffle that keeps the number of
    examples, [train] completes every iteration: it raises nothing and
    reports one pair of losses per iteration. *)
Theorem train_completes agent env key optim random batch_size num_iterations :
  0 < batch_size <= 512 ->
  is_terminated (reset_env env) = false ->
  exists agent' printed,
    train split reset_env canonical_observation is_terminated
    invalid_actions batched_policy gumbel_muzero_policy env_step
    grad_loss_fn apply_gradients shuffle
    agent env key optim random batch_size num_iterations =
    Ok (agent', printed) /\
    length printed = num_iterations.
Proof.
  intros HB Hstart; unfold train.
  destruct (iterations_ok env batch_size (seq 0 num_iterations) HB Hstart
              agent optim key random [])
    as (agent' & optim' & key' & random' & printed' & -> & Hlen).
  cbn [bind].
  exists agent', printed'; split; [reflexivity|].
  rewrite Hlen, length_seq; reflexivity.
Qed.

End TrainMore.

(** ** The further properties on concrete inputs *)

Lemma toy_search_batch :
  forall (agent : unit) (key : list nat) (logits : list (list R))
         (value : list R) (env masks : list nat),
    length (fst (ToyTrain.search agent key (logits, value, env) masks)) =
    length env /\
    length (snd (ToyTrain.search agent key (logits, value, env) masks)) =
    length env.
Proof. intros; simpl; rewrite !length_map; split; reflexivity. Qed.

Lemma toy_terminated_stays (env action : nat) :
  Toy.is_terminated env = true ->
  Toy.is_terminated (fst (ToyTrain.step env action)) = true.
Proof.
  unfold Toy.is_terminated, ToyTrain.step; intros H; rewrite H; exact H.
Qed.

Lemma toy_reverse_length (random : unit)
    (buffer : list (Sample nat (list R) R)) :
  length (fst (ToyTrain.reverse random buffer)) = length buffer.
Proof. apply length_rev. Qed.

Lemma certain_target_in_range : rows_in_range [[1; 0]%R] [[1; 0]%R].
Proof.
  constructor; [|constructor].
  split; [discriminate|]; split; [reflexivity|].
  rewrite log_softmax_pair.
  pose proof exp_le_3 as He3.
  pose proof (exp_pos 1) as Hepos.
  assert (Hc : (ln (exp 1 + exp 0) <= 3)%R).
  { rewrite exp_0.
    assert (Hpos : (0 < exp 1 + 1)%R) by lra.
    pose proof (ln_le_pred _ Hpos); lra. }
  repeat constructor; lra.
Qed.

Lemma buffer_length_witness :
  well_shaped two_games /\
  exists buffer,
    prepare_training_data Z.opp two_games = Ok buffer /\ length buffer = 6.
Proof.
  assert (Hshape : well_shaped two_games) by (repeat split; reflexivity).
  split; [exact Hshape|].
  exact (buffer_length _ _ _ Z.opp two_games Hshape).
Defined.

Lemma prepare_training_data_concatenate_witness :
  Forall (@well_shaped nat nat Z) [one_game; two_games] /\
  exists buffers,
    Forall2 (fun batch buffer => prepare_training_data Z.opp batch = Ok buffer)
            [one_game; two_games] buffers /\
    prepare_training_data Z.opp (concatenated [one_game; two_games]) =
    Ok (concat buffers).
Proof.
  assert (Hshape : Forall (@well_shaped nat nat Z) [one_game; two_games])
    by (repeat constructor).
  split; [exact Hshape|].
  exact (prepare_training_data_concatenate _ _ _ Z.opp
           [one_game; two_games] _ Hshape eq_refl).
Defined.

Lemma prepare_training_data_missing_game_witness :
  length (MoveOutput.state missing_state) <
  length (MoveOutput.terminated missing_state) /\
  prepare_training_data Z.opp missing_state = Raise IndexError.
Proof.
  assert (H : length (MoveOutput.state missing_state) <
              length (MoveOutput.terminated missing_state)) by (simpl; lia).
  split; [exact H|].
  exact (prepare_training_data_missing_game _ _ _ Z.opp missing_state
           (or_introl H)).
Defined.

Lemma value_loss_zero_iff_witness :
  value_loss (constant_policy [[1; 0]%R] [0%R]) tt certain_target = 0%R <->
  [0%R] = [0%R].
Proof.
  apply (value_loss_zero_iff _ _ (constant_policy [[1; 0]%R] [0%R]) tt
           certain_target); [discriminate | reflexivity].
Defined.

Lemma policy_loss_zero_iff_witness :
  policy_loss (constant_policy [[1; 0]%R] [0%R]) tt certain_target = 0%R <->
  Forall2 (fun lg w => softmax lg = softmax w) [[1; 0]%R] [[1; 0]%R].
Proof.
  apply (policy_loss_zero_iff _ _ (constant_policy [[1; 0]%R] [0%R]) tt
           certain_target); [discriminate | exact certain_target_in_range].
Defined.

Lemma policy_loss_not_negative_witness :
  (0 <= policy_loss (constant_policy [[1; 0]%R] [0%R]) tt certain_target)%R.
Proof.
  apply (policy_loss_not_negative _ _ (constant_policy [[1; 0]%R] [0%R]) tt
           certain_target).
  exact certain_target_in_range.
Defined.

Lemma loss_fn_shift_invariant_witness :
  loss_fn (constant_policy [[1 + 2; 0 + 2]%R] [0%R]) tt
          (TrainingExample.Build [tt] [[1 + 3; 0 + 3]%R] [0%R]) =
  loss_fn (constant_policy [[1; 0]%R] [0%R]) tt certain_target.
Proof.
  exact (loss_fn_shift_invariant _ _ (constant_policy [[1; 0]%R] [0%R])
           (constant_policy [[1 + 2; 0 + 2]%R] [0%R]) tt certain_target
           2%R 3%R eq_refl).
Defined.

Lemma clip_leaves_probabilities_witness :
  map (clip (-50)) (log_softmax [1; 0]%R) = log_softmax [1; 0]%R.
Proof.
  apply clip_leaves_probabilities.
  - discriminate.
  - repeat constructor; lra.
  - pose proof (exp_ineq1_le 49); simpl; lra.
Defined.

Lemma batch_loop_full_batches_witness :
  0 < 2 /\ stacked_buffer (Toy.stacked 5) /\
  exists batches,
    Toy.loop tt 0 (Toy.stacked 5) 2 =
    Ok (train_on Toy.constant_outputs Toy.grad_loss_fn Toy.apply_gradients
                 batches (tt, 0, [])) /\
    length batches = 2 /\
    Forall (fun batch =>
              length (TrainingExample.state batch) = 2 /\
              length (TrainingExample.action_weights batch) = 2 /\
              length (TrainingExample.value batch) = 2)
           batches.
Proof.
  assert (Hstacked : stacked_buffer (Toy.stacked 5)) by (split; reflexivity).
  split; [lia|]; split; [exact Hstacked|].
  exact (batch_loop_full_batches _ _ _ _ Toy.constant_outputs
           Toy.grad_loss_fn Toy.apply_gradients tt 0 (Toy.stacked 5) 2
           ltac:(lia) Hstacked).
Defined.

Lemma batch_loop_prefix_witness :
  0 < 2 /\ stacked_buffer (Toy.stacked 5) /\
  exists batches,
    Toy.loop tt 0 (Toy.stacked 5) 2 =
    Ok (train_on Toy.constant_outputs Toy.grad_loss_fn Toy.apply_gradients
                 batches (tt, 0, [])) /\
    concat (map (@TrainingExample.state _ _ _) batches) = [0; 1; 2; 3].
Proof.
  assert (Hstacked : stacked_buffer (Toy.stacked 5)) by (split; reflexivity).
  split; [lia|]; split; [exact Hstacked|].
  destruct (batch_loop_prefix _ _ _ _ Toy.constant_outputs
              Toy.grad_loss_fn Toy.apply_gradients tt 0 (Toy.stacked 5) 2
              ltac:(lia) Hstacked) as (batches & Hloop & Hstate & _).
  exists batches; split; [exact Hloop | exact Hstate].
Defined.

Lemma train_epoch_value_loss_nonneg_witness :
  exists agent optim value_loss policy_loss,
    Toy.epoch tt 0 [Toy.example 0; Toy.example 1; Toy.example 2] 1 =
    Ok (agent, optim, (value_loss, policy_loss)) /\
    (0 <= value_loss)%R.
Proof.
  destruct (train_epoch_ok _ _ _ _ Toy.constant_outputs Toy.grad_loss_fn
              Toy.apply_gradients tt 0
              [Toy.example 0; Toy.example 1; Toy.example 2] 1
              ltac:(simpl; lia)) as ([[agent optim] [vl pl]] & Hrun).
  exists agent, optim, vl, pl; split; [exact Hrun|].
  exact (train_epoch_value_loss_nonneg _ _ _ _ Toy.constant_outputs
           Toy.grad_loss_fn Toy.apply_gradients tt 0 _ 1 _ _ _ _ Hrun).
Defined.

Lemma driver_first_ply_witness :
  exists batch,
    ToyTrain.driver tt 7 [] 3 = Ok batch /\
    (forall game, In game (MoveOutput.state batch) -> hd_error game = Some 0) /\
    (forall game, In game (MoveOutput.terminated batch) ->
       hd_error game = Some false).
Proof.
  destruct (driver_ok _ _ _ _ _ _ _ _ _ _ Toy.split Toy.reset_env
              Toy.canonical_observation Toy.is_terminated Toy.invalid_actions
              Toy.constant_outputs ToyTrain.search ToyTrain.step
              toy_split_length tt 7 [] 3) as (batch & Hbatch & _).
  exists batch; split; [exact Hbatch|].
  exact (driver_first_ply _ _ _ _ _ _ _ _ _ _ Toy.split Toy.reset_env
           Toy.canonical_observation Toy.is_terminated Toy.invalid_actions
           Toy.constant_outputs ToyTrain.search ToyTrain.step
           tt 7 [] 3 batch Hbatch).
Defined.

Lemma driver_shape_witness :
  exists batch,
    ToyTrain.driver tt 7 [] 3 = Ok batch /\
    shape (MoveOutput.state batch) = [4; 4; 4] /\
    shape (MoveOutput.reward batch) = [4; 4; 4] /\
    shape (MoveOutput.terminated batch) = [4; 4; 4] /\
    shape (MoveOutput.action_weights batch) = [4; 4; 4].
Proof.
  exact (driver_shape _ _ _ _ _ _ _ _ _ _ Toy.split Toy.reset_env
           Toy.canonical_observation Toy.is_terminated Toy.invalid_actions
           Toy.constant_outputs ToyTrain.search ToyTrain.step
           toy_split_length toy_search_batch tt 7 [] 3).
Defined.

Lemma driver_padding_last_witness :
  exists batch,
    ToyTrain.driver tt 7 [] 3 = Ok batch /\
    forall flags, In flags (MoveOutput.terminated batch) ->
      exists k, k <= 4 /\ flags = repeat false k ++ repeat true (4 - k).
Proof.
  destruct (driver_ok _ _ _ _ _ _ _ _ _ _ Toy.split Toy.reset_env
              Toy.canonical_observation Toy.is_terminated Toy.invalid_actions
              Toy.constant_outputs ToyTrain.search ToyTrain.step
              toy_split_length tt 7 [] 3) as (batch & Hbatch & _).
  exists batch; split; [exact Hbatch|].
  exact (driver_padding_last _ _ _ _ _ _ _ _ _ _ Toy.split Toy.reset_env
           Toy.canonical_observation Toy.is_terminated Toy.invalid_actions
           Toy.constant_outputs ToyTrain.search ToyTrain.step
           toy_search_batch toy_terminated_stays tt 7 [] 3 batch Hbatch).
Defined.

Lemma collect_selfplay_data_returns_iff_witness :
  ((exists data, ToyTrain.corpus tt 7 [] 2 5 = Ok data) <-> 0 < 2 <= 5) /\
  ToyTrain.corpus tt 7 [] 0 5 = Raise ZeroDivisionError /\
  ToyTrain.corpus tt 7 [] 6 5 = Raise TypeError.
Proof.
  split; [|split].
  - exact (proj1 (collect_selfplay_data_returns_iff _ _ _ _ _ _ _ _ _ _
                    Toy.split Toy.reset_env Toy.canonical_observation
                    Toy.is_terminated Toy.invalid_actions Toy.constant_outputs
                    ToyTrain.search ToyTrain.step toy_split_length
                    tt 7 [] 2 5)).
  - exact (proj1 (proj2 (collect_selfplay_data_returns_iff _ _ _ _ _ _ _ _ _ _
                    Toy.split Toy.reset_env Toy.canonical_observation
                    Toy.is_terminated Toy.invalid_actions Toy.constant_outputs
                    ToyTrain.search ToyTrain.step toy_split_length
                    tt 7 [] 0 5)) eq_refl).
  - exact (proj2 (proj2 (collect_selfplay_data_returns_iff _ _ _ _ _ _ _ _ _ _
                    Toy.split Toy.reset_env Toy.canonical_observation
                    Toy.is_terminated Toy.invalid_actions Toy.constant_outputs
                    ToyTrain.search ToyTrain.step toy_split_length
                    tt 7 [] 6 5)) ltac:(lia)).
Defined.

Lemma collect_selfplay_data_exact_witness :
  6 mod 2 = 0 /\
  exists data, ToyTrain.corpus tt 7 [] 2 6 = Ok data /\ n_games data = 6.
Proof.
  split; [reflexivity|].
  destruct (collect_ok _ _ _ _ _ _ _ _ _ _ Toy.split Toy.reset_env
              Toy.canonical_observation Toy.is_terminated Toy.invalid_actions
              Toy.constant_outputs ToyTrain.search ToyTrain.step
              toy_split_length tt 7 [] 2 6 ltac:(lia)) as (data & Hdata).
  exists data; split; [exact Hdata|].
  exact (collect_selfplay_data_exact _ _ _ _ _ _ _ _ _ _ Toy.split
           Toy.reset_env Toy.canonical_observation Toy.is_terminated
           Toy.invalid_actions Toy.constant_outputs ToyTrain.search
           ToyTrain.step toy_split_length tt 7 [] 2 6 data eq_refl Hdata).
Defined.

Lemma collected_data_compiles_witness :
  exists data buffer,
    ToyTrain.corpus tt 7 [] 2 6 = Ok data /\
    prepare_training_data Ropp data = Ok buffer /\
    length buffer <= 4 * n_games data /\
    n_games data <= length buffer.
Proof.
  destruct (collect_ok _ _ _ _ _ _ _ _ _ _ Toy.split Toy.reset_env
              Toy.canonical_observation Toy.is_terminated Toy.invalid_actions
              Toy.constant_outputs ToyTrain.search ToyTrain.step
              toy_split_length tt 7 [] 2 6 ltac:(lia)) as (data & Hdata).
  destruct (collected_data_compiles _ _ _ _ _ _ _ _ _ _ Toy.split
              Toy.reset_env Toy.canonical_observation Toy.is_terminated
              Toy.invalid_actions Toy.constant_outputs ToyTrain.search
              ToyTrain.step toy_split_length toy_search_batch Ropp
              tt 7 [] 2 6 data Hdata) as (buffer & Hbuffer & Hupper & Hlower).
  exists data, buffer; repeat split; auto.
Defined.

Lemma train_batch_size_out_of_range_witness :
  0 < 3 /\
  ToyTrain.run tt 7 [] 0 tt 0 3 = Raise ZeroDivisionError /\
  ToyTrain.run tt 7 [] 0 tt 2000 3 = Raise TypeError.
Proof.
  split; [lia|]; split.
  - exact (proj1 (train_batch_size_out_of_range _ _ _ _ _ _ _ _ _
                    Toy.split Toy.reset_env Toy.canonical_observation
                    Toy.is_terminated Toy.invalid_actions Toy.constant_outputs
                    ToyTrain.search ToyTrain.step Toy.grad_loss_fn
                    Toy.apply_gradients ToyTrain.reverse toy_split_length
                    tt 7 [] 0 tt 0 3 ltac:(lia)) eq_refl).
  - exact (proj2 (train_batch_size_out_of_range _ _ _ _ _ _ _ _ _
                    Toy.split Toy.reset_env Toy.canonical_observation
                    Toy.is_terminated Toy.invalid_actions Toy.constant_outputs
                    ToyTrain.search ToyTrain.step Toy.grad_loss_fn
                    Toy.apply_gradients ToyTrain.reverse toy_split_length
                    tt 7 [] 0 tt 2000 3 ltac:(lia)) ltac:(lia)).
Defined.

Lemma train_completes_witness :
  0 < 32 <= 512 /\ Toy.is_terminated (Toy.reset_env 7) = false /\
  exists agent printed,
    ToyTrain.run tt 7 [] 0 tt 32 3 = Ok (agent, printed) /\
    length printed = 3.
Proof.
  split; [lia|]; split; [reflexivity|].
  exact (train_completes _ _ _ _ _ _ _ _ _
           Toy.split Toy.reset_env Toy.canonical_observation
           Toy.is_terminated Toy.invalid_actions Toy.constant_outputs
           ToyTrain.search ToyTrain.step Toy.grad_loss_fn
           Toy.apply_gradients ToyTrain.reverse toy_split_length
           toy_search_batch toy_reverse_length
           tt 7 [] 0 tt 32 3 ltac:(lia) eq_refl).
Defined.

